(** * go-testlicense: a shallow embedding of [check.go]

    The package locates a license file by name in a directory listing,
    hands its bytes to [licensecheck.Cover] and turns the coverage into a
    pass/fail answer for a test.

    Go values are modelled as follows.
    - [string]: a byte sequence, Rocq's [string] (one [ascii] per byte);
    - [rune], [int], [licensecheck.Type]: [Z];
    - [[]byte]: [list Byte.byte];
    - [float64]: the kernel's binary64 [float];
    - [map[string]struct{}]: [gmap string ()];
    - [error]: the inductive [error] below, [nil] being [None].

    What the package imports and does not define itself is either written
    out from the Go library ([strings], [unicode/utf8], [fmt]) or taken as a
    parameter of a section (the rune case tables of [unicode], the scorer
    [licensecheck.Cover], the file system). *)

From Stdlib Require Import ZArith String Ascii List Bool Lia ZifyBool.
From Stdlib Require Import Floats.
From stdpp Require Import gmap strings list fin_maps pretty.

Local Open Scope string_scope.
Local Open Scope Z_scope.

(** ** Bytes of a Go string *)

Definition rune := Z.

Definition byteZ (c : ascii) : Z := Z.of_N (N_of_ascii c).
Definition Zbyte (z : Z) : ascii := ascii_of_N (Z.to_N (z mod 256)).

Fixpoint string_map (f : ascii -> ascii) (s : string) : string :=
  match s with
  | EmptyString => EmptyString
  | String c s' => String (f c) (string_map f s')
  end.

Fixpoint string_forallb (p : ascii -> bool) (s : string) : bool :=
  match s with
  | EmptyString => true
  | String c s' => p c && string_forallb p s'
  end.

Fixpoint string_existsb (p : ascii -> bool) (s : string) : bool :=
  match s with
  | EmptyString => false
  | String c s' => p c || string_existsb p s'
  end.

Fixpoint string_drop (n : nat) (s : string) : string :=
  match n, s with
  | O, _ => s
  | S n', String _ s' => string_drop n' s'
  | S _, EmptyString => EmptyString
  end.

(** ** unicode/utf8 *)

Definition utf8_RuneError : rune := 0xFFFD.
Definition utf8_RuneSelf : Z := 0x80.
Definition utf8_MaxRune : rune := 0x10FFFF.

(** The table [first]: information about the first byte of an encoding. *)
Definition utf8_first (b : Z) : Z :=
  if b <? 0x80 then 0xF0
  else if b <? 0xC2 then 0xF1
  else if b <? 0xE0 then 0x02
  else if b =? 0xE0 then 0x13
  else if b <? 0xED then 0x03
  else if b =? 0xED then 0x23
  else if b <? 0xF0 then 0x03
  else if b =? 0xF0 then 0x34
  else if b <? 0xF4 then 0x04
  else if b =? 0xF4 then 0x44
  else 0xF1.

(** [acceptRanges]: the bounds on the second byte. *)
Definition utf8_acceptRanges (i : Z) : Z * Z :=
  if i =? 1 then (0xA0, 0xBF)
  else if i =? 2 then (0x80, 0x9F)
  else if i =? 3 then (0x90, 0xBF)
  else if i =? 4 then (0x80, 0x8F)
  else (0x80, 0xBF).

Definition utf8_cont (b : Z) : bool := (0x80 <=? b) && (b <=? 0xBF).

(** [utf8.DecodeRuneInString]: the first rune of [s] and its width in
    bytes; an invalid encoding gives [(RuneError, 1)]. *)
Definition utf8_DecodeRuneInString (s : string) : rune * nat :=
  match s with
  | EmptyString => (utf8_RuneError, 0%nat)
  | String c0 t =>
    let s0 := byteZ c0 in
    let x := utf8_first s0 in
    if 0xF0 <=? x then
      ((if x =? 0xF1 then utf8_RuneError else s0), 1%nat)
    else
      let sz := Z.land x 7 in
      let '(lo, hi) := utf8_acceptRanges (Z.shiftr x 4) in
      match t with
      | EmptyString => (utf8_RuneError, 1%nat)
      | String c1 t1 =>
        let s1 := byteZ c1 in
        if (s1 <? lo) || (hi <? s1) then (utf8_RuneError, 1%nat)
        else if sz <=? 2 then
          (Z.lor (Z.shiftl (Z.land s0 0x1F) 6) (Z.land s1 0x3F), 2%nat)
        else
          match t1 with
          | EmptyString => (utf8_RuneError, 1%nat)
          | String c2 t2 =>
            let s2 := byteZ c2 in
            if negb (utf8_cont s2) then (utf8_RuneError, 1%nat)
            else if sz <=? 3 then
              (Z.lor (Z.lor (Z.shiftl (Z.land s0 0x0F) 12)
                            (Z.shiftl (Z.land s1 0x3F) 6))
                     (Z.land s2 0x3F), 3%nat)
            else
              match t2 with
              | EmptyString => (utf8_RuneError, 1%nat)
              | String c3 _ =>
                let s3 := byteZ c3 in
                if negb (utf8_cont s3) then (utf8_RuneError, 1%nat)
                else
                  (Z.lor (Z.lor (Z.lor (Z.shiftl (Z.land s0 0x07) 18)
                                       (Z.shiftl (Z.land s1 0x3F) 12))
                                (Z.shiftl (Z.land s2 0x3F) 6))
                         (Z.land s3 0x3F), 4%nat)
              end
          end
      end
  end.

(** The runes a [for _, c := range s] loop visits. *)
Fixpoint utf8_runes_fuel (fuel : nat) (s : string) : list rune :=
  match fuel with
  | O => []
  | S fuel' =>
    match s with
    | EmptyString => []
    | _ =>
      let '(r, w) := utf8_DecodeRuneInString s in
      r :: utf8_runes_fuel fuel' (string_drop w s)
    end
  end.

Definition utf8_runes (s : string) : list rune :=
  utf8_runes_fuel (String.length s) s.

(** [utf8.EncodeRune], for a rune [0 <= r]; surrogates and runes above
    [MaxRune] are written as [RuneError]. *)
Definition utf8_EncodeRune (r : rune) : string :=
  let enc3 (r : rune) :=
    String (Zbyte (Z.lor 0xE0 (Z.shiftr r 12)))
      (String (Zbyte (Z.lor 0x80 (Z.land (Z.shiftr r 6) 0x3F)))
         (String (Zbyte (Z.lor 0x80 (Z.land r 0x3F))) EmptyString)) in
  if r <=? 0x7F then String (Zbyte r) EmptyString
  else if r <=? 0x7FF then
    String (Zbyte (Z.lor 0xC0 (Z.shiftr r 6)))
      (String (Zbyte (Z.lor 0x80 (Z.land r 0x3F))) EmptyString)
  else if (utf8_MaxRune <? r) || ((0xD800 <=? r) && (r <=? 0xDFFF)) then
    enc3 utf8_RuneError
  else if r <=? 0xFFFF then enc3 r
  else
    String (Zbyte (Z.lor 0xF0 (Z.shiftr r 18)))
      (String (Zbyte (Z.lor 0x80 (Z.land (Z.shiftr r 12) 0x3F)))
         (String (Zbyte (Z.lor 0x80 (Z.land (Z.shiftr r 6) 0x3F)))
            (String (Zbyte (Z.lor 0x80 (Z.land r 0x3F))) EmptyString))).

(** [utf8.ValidRune]: neither negative, nor a surrogate, nor above
    [MaxRune]. *)
Definition utf8_ValidRune (r : rune) : bool :=
  ((0 <=? r) && (r <? 0xD800)) || ((0xDFFF <? r) && (r <=? utf8_MaxRune)).

(** ** strings *)

(** [strings.Map]: every rune of [s] is replaced by its image, a negative
    image is dropped.  (Go returns [s] itself when no rune changes, which
    is the same byte sequence.) *)
Definition strings_Map (mapping : rune -> rune) (s : string) : string :=
  fold_right
    (fun c acc =>
       let r := mapping c in
       if 0 <=? r then utf8_EncodeRune r ++ acc else acc)
    EmptyString (utf8_runes s).

(** What [strings.Map] writes for a sequence of images. *)
Definition write_runes (rs : list rune) : string :=
  fold_right
    (fun r acc => if 0 <=? r then utf8_EncodeRune r ++ acc else acc)
    EmptyString rs.

Definition isASCII (s : string) : bool :=
  string_forallb (fun c => byteZ c <? utf8_RuneSelf) s.

Definition isUpperByte (c : ascii) : bool :=
  (byteZ "A" <=? byteZ c) && (byteZ c <=? byteZ "Z").
Definition isLowerByte (c : ascii) : bool :=
  (byteZ "a" <=? byteZ c) && (byteZ c <=? byteZ "z").

Definition lowerByte (c : ascii) : ascii :=
  if isUpperByte c then Zbyte (byteZ c + (byteZ "a" - byteZ "A")) else c.
Definition upperByte (c : ascii) : ascii :=
  if isLowerByte c then Zbyte (byteZ c - (byteZ "a" - byteZ "A")) else c.

(** [strings.ToLower] and [strings.ToUpper]: an ASCII-only string is
    mapped byte by byte; any other string goes through [strings.Map] with
    the rune map of package [unicode]. *)
Definition strings_ToLower (unicode_ToLower : rune -> rune) (s : string)
  : string :=
  if isASCII s then
    if negb (string_existsb isUpperByte s) then s
    else string_map lowerByte s
  else strings_Map unicode_ToLower s.

Definition strings_ToUpper (unicode_ToUpper : rune -> rune) (s : string)
  : string :=
  if isASCII s then
    if negb (string_existsb isLowerByte s) then s
    else string_map upperByte s
  else strings_Map unicode_ToUpper s.

(** [strings.Join]. *)
Fixpoint strings_Join (elems : list string) (sep : string) : string :=
  match elems with
  | [] => ""
  | [a] => a
  | a :: rest => a ++ sep ++ strings_Join rest sep
  end.

(** ** unicode: a few rows of [unicode.CaseRanges]

    The theorems below hold for every rune map, or for every rune map
    with the properties they name; the rows here serve the concrete
    examples that leave ASCII. *)

Record CaseRange := {
  Lo : rune;
  Hi : rune;
  Delta : Z * Z * Z   (* UpperCase, LowerCase, TitleCase *)
}.

Definition UpperCase : Z := 0.
Definition LowerCase : Z := 1.

Definition CaseRanges_rows : list CaseRange :=
  [ {| Lo := 0x0041; Hi := 0x005A; Delta := (0, 32, 0) |};
    {| Lo := 0x0061; Hi := 0x007A; Delta := (-32, 0, -32) |};
    {| Lo := 0x0130; Hi := 0x0130; Delta := (0, -199, 0) |};
    {| Lo := 0x0131; Hi := 0x0131; Delta := (-232, 0, -232) |};
    {| Lo := 0x017F; Hi := 0x017F; Delta := (-300, 0, -300) |};
    {| Lo := 0x212A; Hi := 0x212A; Delta := (0, -8383, 0) |} ].

Definition delta_at (_case : Z) (d : Z * Z * Z) : Z :=
  let '(u, l, t) := d in
  if _case =? UpperCase then u else if _case =? LowerCase then l else t.

(** [unicode.to]: the row that holds [r] decides; no row, no change. *)
Fixpoint unicode_to (_case : Z) (r : rune) (caseRange : list CaseRange)
  : rune :=
  match caseRange with
  | [] => r
  | cr :: rest =>
    if (Lo cr <=? r) && (r <=? Hi cr) then r + delta_at _case (Delta cr)
    else unicode_to _case r rest
  end.

Definition unicode_ToLower_rows (r : rune) : rune :=
  if r <=? 0x7F then
    (if (0x41 <=? r) && (r <=? 0x5A) then r + 32 else r)
  else unicode_to LowerCase r CaseRanges_rows.

Definition unicode_ToUpper_rows (r : rune) : rune :=
  if r <=? 0x7F then
    (if (0x61 <=? r) && (r <=? 0x7A) then r - 32 else r)
  else unicode_to UpperCase r CaseRanges_rows.

(** Three facts about [unicode.ToLower] that hold of Go's function: its
    first branch maps [A]-[Z] to [a]-[z] ([r += 'a' - 'A']); lowering a
    rune twice is lowering it once; U+FFFD has no case. *)
Definition stable_lowering (u : rune -> rune) : Prop :=
  (forall r, 0x41 <= r <= 0x5A -> u r = r + 32) /\
  (forall r, u (u r) = u r) /\
  u utf8_RuneError = utf8_RuneError.

(** ** The allowlist *)

Definition Filenames : list string :=
  [ "COPYING";
    "COPYING.md";
    "COPYING.markdown";
    "COPYING.txt";
    "LICENCE";
    "LICENCE.md";
    "LICENCE.markdown";
    "LICENCE.txt";
    "LICENSE";
    "LICENSE.md";
    "LICENSE.markdown";
    "LICENSE.txt";
    "LICENSE-2.0.txt";
    "LICENCE-2.0.txt";
    "LICENSE-APACHE";
    "LICENCE-APACHE";
    "LICENSE-APACHE-2.0.txt";
    "LICENCE-APACHE-2.0.txt";
    "LICENSE-MIT";
    "LICENCE-MIT";
    "LICENSE.MIT";
    "LICENCE.MIT";
    "LICENSE.code";
    "LICENCE.code";
    "LICENSE.docs";
    "LICENCE.docs";
    "LICENSE.rst";
    "LICENCE.rst";
    "MIT-LICENSE";
    "MIT-LICENCE";
    "MIT-LICENSE.md";
    "MIT-LICENCE.md";
    "MIT-LICENSE.markdown";
    "MIT-LICENCE.markdown";
    "MIT-LICENSE.txt";
    "MIT-LICENCE.txt";
    "MIT_LICENSE";
    "MIT_LICENCE";
    "UNLICENSE";
    "UNLICENCE" ].

Section Recognizer.

(** [unicode.ToLower] on runes, whatever its tables say. *)
Variable unicode_ToLower : rune -> rune.

Definition ToLower : string -> string := strings_ToLower unicode_ToLower.

(** [func init()]: one insertion per entry of [Filenames], in order,
    starting from the empty map made by [make]. *)
Definition init (m : gmap string ()) : gmap string () :=
  foldl (fun m v => <[ToLower v := tt]> m) m Filenames.

(** The package variable [filenames] once [init] has run. *)
Definition filenames : gmap string () := init ∅.

Definition IsLicenseFilename (s : string) : bool :=
  match filenames !! ToLower s with
  | Some _ => true
  | None => false
  end.

End Recognizer.


(** ** fmt: the verb [%f] on a [float64]

    [strconv.FormatFloat(x, 'f', prec, 64)] prints the exact value of [x]
    rounded to [prec] decimals, ties to even; [fmt] pads the result on the
    left with spaces up to the width. *)

Definition round_half_even (n d : Z) : Z :=
  let q := n / d in
  let r := n mod d in
  if 2 * r <? d then q
  else if d <? 2 * r then q + 1
  else if Z.even q then q else q + 1.

Fixpoint zeros (n : nat) : string :=
  match n with
  | O => ""
  | S n' => String "0" (zeros n')
  end.

Fixpoint spaces (n : nat) : string :=
  match n with
  | O => ""
  | S n' => String " " (spaces n')
  end.

Definition fixed_digits (n : Z) (prec : nat) : string :=
  let p := 10 ^ Z.of_nat prec in
  let int_part := pretty (Z.to_N (n / p)) in
  match prec with
  | O => int_part
  | _ =>
    let frac := pretty (Z.to_N (n mod p)) in
    int_part +:+ "." +:+ zeros (prec - String.length frac) +:+ frac
  end.

Definition strconv_FormatFloat_f (x : float) (prec : nat) : string :=
  match Prim2SF x with
  | S754_nan => "NaN"
  | S754_infinity s => if s then "-Inf" else "+Inf"
  | S754_zero s => (if s then "-" else "") +:+ fixed_digits 0 prec
  | S754_finite s m e =>
    let scaled := Z.pos m * 10 ^ Z.of_nat prec in
    let n := if 0 <=? e then scaled * 2 ^ e
             else round_half_even scaled (2 ^ (- e)) in
    (if s then "-" else "") +:+ fixed_digits n prec
  end.

Definition fmt_pad (wid : nat) (s : string) : string :=
  spaces (wid - String.length s) +:+ s.

(** [%f] is [%0.6f] without a width; [%3.1f] has width 3, precision 1. *)
Definition fmt_f (x : float) : string := strconv_FormatFloat_f x 6.
Definition fmt_3_1f (x : float) : string :=
  fmt_pad 3 (strconv_FormatFloat_f x 1).

(** ** Errors *)

Inductive error :=
| os_ErrNotExist                              (* the value [os.ErrNotExist] *)
| errorString (s : string)                    (* [errors.New], [fmt.Errorf] *)
| PathError (Op Path : string) (Err : Z).     (* [*os.PathError] over an errno *)

Definition errors_New (text : string) : error := errorString text.

(** [fmt.Errorf] without the verb [%w], applied to the formatted text. *)
Definition fmt_Errorf (formatted : string) : error := errorString formatted.

#[global] Instance error_eq_dec : EqDecision error.
Proof. solve_decision. Defined.

(** ** licensecheck: the types the package reads *)

Record Options := { MinLength : Z; Threshold : Z; Slop : Z }.

(** The composite literal [licensecheck.Options{}]. *)
Definition Options_zero : Options :=
  {| MinLength := 0; Threshold := 0; Slop := 0 |}.

Module Match.
Record t := {
  Name : string;
  Type_ : Z;          (* the field [Type], a [licensecheck.Type] *)
  Percent : float
}.
End Match.

Module Coverage.
Record t := {
  Percent : float;
  Match : list Match.t
}.
End Coverage.

(** ** The file system and the test handle *)

Record World := {
  Getwd : string;                                   (* working directory *)
  open_err : string -> option error;                (* does opening a path fail *)
  entries : string -> list string * option error;   (* names in a directory *)
  contents : string -> list Byte.byte * option error (* bytes of a file *)
}.

(** A name that is not rooted is resolved against the working directory. *)
Definition abs_path (w : World) (name : string) : string :=
  if String.eqb name "." then Getwd w
  else match name with
       | String "/" _ => name
       | _ => Getwd w +:+ "/" +:+ name
       end.

(** An [*os.File] open on a directory. *)
Record File := { f_path : string }.

Definition os_Open (w : World) (name : string) : File + error :=
  match open_err w (abs_path w name) with
  | Some e => inr e
  | None => inl {| f_path := abs_path w name |}
  end.

Definition ioutil_ReadFile (w : World) (filename : string)
  : list Byte.byte * option error :=
  contents w (abs_path w filename).

(** [type DirnamesReader interface { Readdirnames(int) ([]string, error) }] *)
Class DirnamesReader (A : Type) :=
  Readdirnames : A -> Z -> list string * option error.

(** A freshly opened directory answers [Readdirnames(n)], [n <= 0], with
    all the names it holds; the package makes no other call. *)
Definition File_Readdirnames (w : World) : DirnamesReader File :=
  fun f _ => entries w (f_path f).

(** An in-memory reader: a fixed answer. *)
Record FakeDir := { fake_names : list string; fake_err : option error }.

#[global] Instance FakeDir_Readdirnames : DirnamesReader FakeDir :=
  fun d _ => (fake_names d, fake_err d).

(** [testing.T], as far as [t.Fatal] touches it. *)
Record T := { failed : bool; output : list string }.

Inductive flow := Returned | Goexit.

(** ** The checker *)

Section Checker.

Variable unicode_ToLower : rune -> rune.

(** The text of an errno on the platform, [syscall.Errno.Error]. *)
Variable Errno_Error : Z -> string.

(** [licensecheck.Cover], the scorer. *)
Variable Cover : list Byte.byte -> Options -> Coverage.t * bool.

Variable w : World.

(** The method [Error] of an error value. *)
Definition Error (e : error) : string :=
  match e with
  | os_ErrNotExist => "file does not exist"
  | errorString s => s
  | PathError op path err =>
    op +:+ " " +:+ path +:+ ": " +:+ Errno_Error err
  end.

(** The loop of [ReadLicenseDir] over the names of the listing. *)
Fixpoint ReadLicenseDir_loop (names : list string)
  : string * list Byte.byte * option error :=
  match names with
  | [] => ("", [], Some os_ErrNotExist)
  | filename :: rest =>
    if IsLicenseFilename unicode_ToLower filename then
      let '(b, err) := ioutil_ReadFile w filename in
      (filename, b, err)
    else ReadLicenseDir_loop rest
  end.

Definition ReadLicenseDir {A} {R : DirnamesReader A} (dir : A)
  : string * list Byte.byte * option error :=
  let '(names, err) := Readdirnames dir 0 in
  match err with
  | Some e => ("", [], Some e)
  | None => ReadLicenseDir_loop names
  end.

(** [ReadLicense]; the deferred [f.Close()] does not change the result. *)
Definition ReadLicense : string * list Byte.byte * option error :=
  match os_Open w "." with
  | inr err => ("", [], Some err)
  | inl f => ReadLicenseDir (R := File_Readdirnames w) f
  end.

Definition Sprintf_match (m : Match.t) : string :=
  Match.Name m +:+ "(" +:+ fmt_3_1f (Match.Percent m) +:+ "%)".

(** The loop of [assertLicense] over [cov.Match]; [list] holds the
    entries formatted so far. *)
Fixpoint assertLicense_loop (ms : list Match.t) (want : Z)
    (list : list string) : option error :=
  match ms with
  | [] =>
    Some (fmt_Errorf
            ("license does not match. found: " +:+ strings_Join list ","))
  | m :: rest =>
    if Match.Type_ m =? want then None
    else assertLicense_loop rest want (list ++ [Sprintf_match m])
  end.

Definition assertLicense (b : list Byte.byte) (want : Z) (percent : float)
  : option error :=
  let '(cov, ok) := Cover b Options_zero in
  if negb ok then Some (errors_New "license not found")
  else if PrimFloat.ltb (Coverage.Percent cov) percent then
    Some (fmt_Errorf
            ("percentage " +:+ fmt_f (Coverage.Percent cov)
             +:+ " is less than wanted " +:+ fmt_f percent))
  else assertLicense_loop (Coverage.Match cov) want [].

Definition AssertLicenseDir {A} {R : DirnamesReader A} (dir : A) (want : Z)
    (percent : float) : option error :=
  let '(_, b, err) := ReadLicenseDir dir in
  match err with
  | Some e => Some e
  | None => assertLicense b want percent
  end.

Definition AssertLicense (want : Z) (percent : float) : option error :=
  let '(_, b, err) := ReadLicense in
  match err with
  | Some e => Some e
  | None => assertLicense b want percent
  end.

(** [t.Fatal(err)]: log the line [fmt.Sprintln(err)], mark the test as
    failed and leave the goroutine. *)
Definition Fatal (t : T) (err : error) : T * flow :=
  ({| failed := true;
      output := output t ++ [Error err +:+ String "010" ""] |}, Goexit).

Definition TestPercent (t : T) (want : Z) (percent : float) : T * flow :=
  match AssertLicense want percent with
  | Some err => Fatal t err
  | None => (t, Returned)
  end.

Definition Test (t : T) (want : Z) : T * flow :=
  TestPercent t want 90.

End Checker.

Arguments ReadLicenseDir _ _ {A R} dir.
Arguments AssertLicenseDir _ _ _ {A R} dir want percent.

(** ** Concrete inputs used by the examples *)

(** The name [licen?e] whose sixth letter is U+017F, LATIN SMALL LETTER
    LONG S (bytes C5 BF). *)
Definition long_s_name : string :=
  "licen" +:+ String (Zbyte 0xC5) (String (Zbyte 0xBF) "e").

(** The name [L?CENSE] whose second letter is U+0130, LATIN CAPITAL
    LETTER I WITH DOT ABOVE (bytes C4 B0). *)
Definition dotted_I_name : string :=
  "L" +:+ String (Zbyte 0xC4) (String (Zbyte 0xB0) "CENSE").

Definition demo_Errno_Error (e : Z) : string :=
  if e =? 2 then "no such file or directory"
  else "errno " +:+ pretty (Z.to_N e).

Definition bytes_of (s : string) : list Byte.byte := list_byte_of_string s.

(** Two directories: [/repo] holds a README and an MIT license, the
    working directory [/work] holds another file named LICENSE. *)
Definition demo_world : World :=
  {| Getwd := "/work";
     open_err := fun _ => None;
     entries := fun p =>
       if String.eqb p "/repo" then (["README.md"; "LICENSE"], None)
       else if String.eqb p "/work" then (["main.go"; "LICENSE"], None)
       else ([], Some (PathError "readdirent" p 20));
     contents := fun p =>
       if String.eqb p "/repo/LICENSE" then (bytes_of "MIT License", None)
       else if String.eqb p "/work/LICENSE" then
         (bytes_of "GNU GENERAL PUBLIC LICENSE", None)
       else ([], Some (PathError "open" "LICENSE" 2)) |}.

(** The same, with nothing readable in the working directory. *)
Definition bare_world : World :=
  {| Getwd := "/work";
     open_err := fun _ => None;
     entries := fun _ => (["LICENSE"], None);
     contents := fun _ => ([], Some (PathError "open" "LICENSE" 2)) |}.

Definition repo_dir : File := {| f_path := "/repo" |}.

(** A process that may not open its working directory (EACCES). *)
Definition locked_world : World :=
  {| Getwd := "/work";
     open_err := fun _ => Some (PathError "open" "." 13);
     entries := fun _ => ([], None);
     contents := fun _ => ([], None) |}.

(** In-memory listings: one that fails, one with a license, one without. *)
Definition failing_dir : FakeDir :=
  {| fake_names := ["partial"];
     fake_err := Some (PathError "readdirent" "." 5) |}.

Definition license_dir : FakeDir :=
  {| fake_names := ["README.md"; "LICENSE"; "COPYING"]; fake_err := None |}.

Definition no_license_dir : FakeDir :=
  {| fake_names := ["README.md"; "main.go"]; fake_err := None |}.

(** A scorer with a fixed answer. *)
Definition const_Cover (cov : Coverage.t) (ok : bool)
  : list Byte.byte -> Options -> Coverage.t * bool :=
  fun _ _ => (cov, ok).

Definition no_Coverage : Coverage.t :=
  {| Coverage.Percent := 0; Coverage.Match := [] |}.

Definition demo_MIT : Z := 7.
Definition demo_Apache : Z := 2.

Definition mit_match (p : float) : Match.t :=
  {| Match.Name := "MIT"; Match.Type_ := demo_MIT; Match.Percent := p |}.
Definition apache_match (p : float) : Match.t :=
  {| Match.Name := "Apache-2.0"; Match.Type_ := demo_Apache;
     Match.Percent := p |}.

(** Coverage results: 72% of MIT text; 95.5% split over two licenses;
    95.5% without any match. *)
Definition cov_72 : Coverage.t :=
  {| Coverage.Percent := 72; Coverage.Match := [mit_match 72] |}.
Definition cov_two : Coverage.t :=
  {| Coverage.Percent := 95.5;
     Coverage.Match := [apache_match 95.25; mit_match 10] |}.
Definition cov_empty : Coverage.t :=
  {| Coverage.Percent := 95.5; Coverage.Match := [] |}.

Definition t0 : T := {| failed := false; output := [] |}.

(** * Properties *)

(** ** Decoding visits the whole string *)

Lemma utf8_DecodeRuneInString_width c s :
  (1 <= (utf8_DecodeRuneInString (String c s)).2 <= 4)%nat.
Proof.
  unfold utf8_DecodeRuneInString.
  repeat case_match; cbn [snd]; lia.
Qed.

Lemma string_drop_length n s :
  String.length (string_drop n s) = (String.length s - n)%nat.
Proof.
  revert s.
  induction n as [|n IH]; intros [|c s]; cbn [string_drop String.length];
    try rewrite IH; lia.
Qed.

Lemma utf8_runes_fuel_irrelevant n m s :
  (String.length s <= n)%nat -> (String.length s <= m)%nat ->
  utf8_runes_fuel n s = utf8_runes_fuel m s.
Proof.
  revert m s. induction n as [|n IH]; intros m s Hn Hm.
  - destruct s; [|cbn in Hn; lia]. destruct m; reflexivity.
  - destruct s as [|c s]; [destruct m; reflexivity|].
    destruct m as [|m]; [cbn in Hm; lia|].
    cbn [utf8_runes_fuel].
    pose proof (utf8_DecodeRuneInString_width c s) as Hw.
    destruct (utf8_DecodeRuneInString (String c s)) as [r k].
    cbn [snd] in Hw. f_equal.
    apply IH; rewrite string_drop_length; cbn [String.length] in *; lia.
Qed.

(** The length of the string is fuel enough: one rune per step, each at
    least one byte wide, until the string is empty. *)
Lemma utf8_runes_step c s :
  utf8_runes (String c s)
  = (utf8_DecodeRuneInString (String c s)).1
    :: utf8_runes
         (string_drop (utf8_DecodeRuneInString (String c s)).2 (String c s)).
Proof.
  unfold utf8_runes at 1. cbn [String.length utf8_runes_fuel].
  pose proof (utf8_DecodeRuneInString_width c s) as Hw.
  destruct (utf8_DecodeRuneInString (String c s)) as [r k].
  cbn [fst snd] in *. f_equal.
  apply utf8_runes_fuel_irrelevant; rewrite ?string_drop_length;
    cbn [String.length]; lia.
Qed.

(** ** Printing percentages *)

Example fmt_f_72 : fmt_f 72 = "72.000000" /\ fmt_f 90 = "90.000000".
Proof. split; vm_compute; reflexivity. Qed.

Example fmt_3_1f_values :
  fmt_3_1f 95.25 = "95.2" /\ fmt_3_1f 10 = "10.0" /\ fmt_3_1f 0.75 = "0.8".
Proof. repeat split; vm_compute; reflexivity. Qed.

Example fmt_f_not_a_number :
  fmt_f nan = "NaN" /\ fmt_f infinity = "+Inf" /\
  fmt_f neg_infinity = "-Inf".
Proof. repeat split; vm_compute; reflexivity. Qed.

(** ** Bytes and ASCII strings *)

Ltac by_all_bytes c :=
  destruct c as [[] [] [] [] [] [] [] []]; vm_compute; reflexivity.

Lemma lowerByte_idem c : lowerByte (lowerByte c) = lowerByte c.
Proof. by_all_bytes c. Qed.

Lemma lowerByte_upperByte c : lowerByte (upperByte c) = lowerByte c.
Proof. by_all_bytes c. Qed.

Lemma lowerByte_below c :
  (byteZ (lowerByte c) <? utf8_RuneSelf) = (byteZ c <? utf8_RuneSelf).
Proof. by_all_bytes c. Qed.

Lemma upperByte_below c :
  (byteZ (upperByte c) <? utf8_RuneSelf) = (byteZ c <? utf8_RuneSelf).
Proof. by_all_bytes c. Qed.

Lemma lowerByte_fix c : isUpperByte c = false -> lowerByte c = c.
Proof. unfold lowerByte. intros ->. reflexivity. Qed.

Lemma upperByte_fix c : isLowerByte c = false -> upperByte c = c.
Proof. unfold upperByte. intros ->. reflexivity. Qed.

Lemma string_map_fix f p s :
  (forall c, p c = false -> f c = c) ->
  string_existsb p s = false -> string_map f s = s.
Proof.
  intros Hf. induction s as [|c s IH]; simpl; [reflexivity|].
  intros [Hc Hs]%orb_false_elim. rewrite (Hf c Hc), (IH Hs). reflexivity.
Qed.

Lemma string_map_map f g h s :
  (forall c, f (g c) = h c) ->
  string_map f (string_map g s) = string_map h s.
Proof.
  intros Hfg. induction s as [|c s IH]; simpl; [reflexivity|].
  rewrite Hfg, IH. reflexivity.
Qed.

Lemma isASCII_string_map f s :
  (forall c, (byteZ (f c) <? utf8_RuneSelf) = (byteZ c <? utf8_RuneSelf)) ->
  isASCII (string_map f s) = isASCII s.
Proof.
  intros Hf. unfold isASCII. induction s as [|c s IH]; simpl; [reflexivity|].
  rewrite Hf, IH. reflexivity.
Qed.

(** On an ASCII-only string the rune tables are never consulted. *)
Lemma strings_ToLower_ascii u s :
  isASCII s = true -> strings_ToLower u s = string_map lowerByte s.
Proof.
  intros Ha. unfold strings_ToLower. rewrite Ha.
  destruct (string_existsb isUpperByte s) eqn:Hu; simpl; [reflexivity|].
  symmetry. apply (string_map_fix _ isUpperByte); auto using lowerByte_fix.
Qed.

Lemma strings_ToUpper_ascii u s :
  isASCII s = true -> strings_ToUpper u s = string_map upperByte s.
Proof.
  intros Ha. unfold strings_ToUpper. rewrite Ha.
  destruct (string_existsb isLowerByte s) eqn:Hu; simpl; [reflexivity|].
  symmetry. apply (string_map_fix _ isLowerByte); auto using upperByte_fix.
Qed.

Lemma ToLower_ToLower_ascii u s :
  isASCII s = true -> ToLower u (ToLower u s) = ToLower u s.
Proof.
  intros Ha. unfold ToLower.
  rewrite (strings_ToLower_ascii u s Ha).
  rewrite strings_ToLower_ascii
    by (rewrite isASCII_string_map; auto using lowerByte_below).
  apply string_map_map, lowerByte_idem.
Qed.

Lemma ToLower_ToUpper_ascii u u' s :
  isASCII s = true -> ToLower u (strings_ToUpper u' s) = ToLower u s.
Proof.
  intros Ha. unfold ToLower.
  rewrite (strings_ToUpper_ascii u' s Ha), (strings_ToLower_ascii u s Ha).
  rewrite strings_ToLower_ascii
    by (rewrite isASCII_string_map; auto using upperByte_below).
  apply string_map_map, lowerByte_upperByte.
Qed.

(** ** The lookup set built by [init] *)

Lemma init_fold_lookup (f : string -> string) (l : list string)
    (m : gmap string ()) (k : string) :
  is_Some (foldl (fun m v => <[f v := tt]> m) m l !! k) <->
  is_Some (m !! k) \/ k ∈ f <$> l.
Proof.
  revert m. induction l as [|v l IH]; intros m; simpl.
  - split; [auto|]. intros [H|H]; [exact H|]. inversion H.
  - rewrite IH, lookup_insert_is_Some, elem_of_cons.
    destruct (decide (f v = k)) as [Heq|Hne]; intuition congruence.
Qed.

Lemma filenames_lookup u k :
  is_Some (filenames u !! k) <-> k ∈ ToLower u <$> Filenames.
Proof.
  unfold filenames, init. rewrite init_fold_lookup, lookup_empty.
  split; [intros [[? H]|H]; [discriminate|exact H] | auto].
Qed.

Lemma IsLicenseFilename_true u s :
  IsLicenseFilename u s = true <-> ToLower u s ∈ ToLower u <$> Filenames.
Proof.
  rewrite <- filenames_lookup. unfold IsLicenseFilename.
  destruct (filenames u !! ToLower u s) as [[]|]; split;
    try reflexivity; try discriminate; eauto.
  intros [? ?]. discriminate.
Qed.

Lemma IsLicenseFilename_ToLower_eq u s s' :
  ToLower u s = ToLower u s' ->
  IsLicenseFilename u s = IsLicenseFilename u s'.
Proof. unfold IsLicenseFilename. intros ->. reflexivity. Qed.

(** ** The filename recognizer *)

Example IsLicenseFilename_LICENSE u : IsLicenseFilename u "LICENSE" = true.
Proof. vm_compute. reflexivity. Qed.

Example IsLicenseFilename_mixed_case u :
  IsLicenseFilename u "License.TXT" = true.
Proof. vm_compute. reflexivity. Qed.

Example IsLicenseFilename_no_prefix_match u :
  IsLicenseFilename u "LICENSE.bak" = false /\
  IsLicenseFilename u "LICENS" = false.
Proof. split; vm_compute; reflexivity. Qed.

(** With the rows of [unicode.CaseRanges] for U+017F, the long s is
    unchanged by lowering and becomes [S] by raising. *)
Example long_s_name_cases :
  strings_ToLower unicode_ToLower_rows long_s_name = long_s_name /\
  strings_ToUpper unicode_ToUpper_rows long_s_name = "LICENSE".
Proof. split; vm_compute; reflexivity. Qed.

(** C5, as stated, fails: the name [licen?e] written with a long s is not
    recognized, its uppercased form [LICENSE] is. *)
Lemma IsLicenseFilename_upper_differs :
  IsLicenseFilename unicode_ToLower_rows long_s_name = false /\
  IsLicenseFilename unicode_ToLower_rows
    (strings_ToUpper unicode_ToUpper_rows long_s_name) = true.
Proof. split; vm_compute; reflexivity. Qed.

(** On a string [s] made of ASCII bytes only, [IsLicenseFilename s]
    equals [IsLicenseFilename] of the lowercased form of [s] and of the
    uppercased form of [s], whatever the rune tables of [unicode] hold. *)
Theorem IsLicenseFilename_case_insensitive_ascii
    (u u' : rune -> rune) (s : string) :
  isASCII s = true ->
  IsLicenseFilename u s = IsLicenseFilename u (strings_ToLower u s) /\
  IsLicenseFilename u s = IsLicenseFilename u (strings_ToUpper u' s).
Proof.
  intros Ha. split; apply IsLicenseFilename_ToLower_eq; symmetry.
  - apply (ToLower_ToLower_ascii u s Ha).
  - apply (ToLower_ToUpper_ascii u u' s Ha).
Qed.

Lemma IsLicenseFilename_case_insensitive_ascii_witness :
  isASCII "License.TXT" = true /\
  IsLicenseFilename unicode_ToLower_rows "License.TXT"
  = IsLicenseFilename unicode_ToLower_rows "license.txt" /\
  IsLicenseFilename unicode_ToLower_rows "License.TXT"
  = IsLicenseFilename unicode_ToLower_rows "LICENSE.TXT".
Proof.
  split; [reflexivity|].
  apply (IsLicenseFilename_case_insensitive_ascii
           unicode_ToLower_rows unicode_ToUpper_rows "License.TXT").
  reflexivity.
Defined.

(** C6: [IsLicenseFilename name] is true exactly when the lowercased
    [name] equals the lowercased form of some entry of [Filenames]; and
    [IsLicenseFilename "README.md"] is false. *)
Theorem IsLicenseFilename_iff (u : rune -> rune) (name : string) :
  (IsLicenseFilename u name = true <->
   exists e, e ∈ Filenames /\ ToLower u name = ToLower u e) /\
  IsLicenseFilename u "README.md" = false.
Proof.
  split; [|vm_compute; reflexivity].
  rewrite IsLicenseFilename_true, list_elem_of_fmap.
  split; intros (e & H1 & H2); exists e; auto.
Qed.

(** C9: once [init] has run, the lowercased forms of the 40 entries of
    [Filenames] are pairwise distinct, the keys of [filenames] are exactly
    those lowercased forms, and so the map holds one key per entry.  The
    map is a value of the model: [IsLicenseFilename] reads it and no
    function returns another one. *)
Theorem filenames_invariant (u : rune -> rune) :
  length Filenames = 40%nat /\
  NoDup (ToLower u <$> Filenames) /\
  (forall k, is_Some (filenames u !! k) <-> k ∈ ToLower u <$> Filenames) /\
  (forall v, v ∈ Filenames -> filenames u !! ToLower u v = Some tt) /\
  size (filenames u) = length Filenames.
Proof.
  split; [reflexivity|].
  split; [apply (bool_decide_unpack _); vm_compute; exact I|].
  split; [apply filenames_lookup|].
  split; [|vm_compute; reflexivity].
  intros v Hv.
  destruct (proj2 (filenames_lookup u (ToLower u v))) as [[] ->];
    [|reflexivity].
  apply list_elem_of_fmap. exists v. auto.
Qed.

(** ** The directory scan *)

Section ScanFacts.

Variable u : rune -> rune.
Variable w : World.

Lemma ReadLicenseDir_loop_first (pre : list string) (f : string)
    (post : list string) :
  Forall (fun x => IsLicenseFilename u x = false) pre ->
  IsLicenseFilename u f = true ->
  ReadLicenseDir_loop u w (pre ++ f :: post)
  = (f, (ioutil_ReadFile w f).1, (ioutil_ReadFile w f).2).
Proof.
  intros Hpre Hf.
  induction Hpre as [|x pre Hx _ IH]; cbn [app ReadLicenseDir_loop].
  - rewrite Hf. destruct (ioutil_ReadFile w f). reflexivity.
  - rewrite Hx. exact IH.
Qed.

Lemma ReadLicenseDir_loop_none names :
  Forall (fun x => IsLicenseFilename u x = false) names ->
  ReadLicenseDir_loop u w names = ("", [], Some os_ErrNotExist).
Proof.
  induction 1 as [|x names Hx _ IH]; cbn [ReadLicenseDir_loop];
    [reflexivity|].
  rewrite Hx. exact IH.
Qed.

(** Listing succeeded: the first recognized name is returned with what
    [ioutil.ReadFile] gives for that name, later entries play no part. *)
Lemma ReadLicenseDir_first_match {A} {R : DirnamesReader A} (dir : A)
    (pre : list string) (f : string) (post : list string) :
  Readdirnames dir 0 = ((pre ++ f :: post)%list, None) ->
  Forall (fun x => IsLicenseFilename u x = false) pre ->
  IsLicenseFilename u f = true ->
  ReadLicenseDir u w dir
  = (f, (ioutil_ReadFile w f).1, (ioutil_ReadFile w f).2).
Proof.
  intros Hn Hpre Hf. unfold ReadLicenseDir. rewrite Hn.
  apply ReadLicenseDir_loop_first; assumption.
Qed.

Lemma ReadLicenseDir_listing_error {A} {R : DirnamesReader A} (dir : A)
    names e :
  Readdirnames dir 0 = (names, Some e) ->
  ReadLicenseDir u w dir = ("", [], Some e).
Proof. intros Hn. unfold ReadLicenseDir. rewrite Hn. reflexivity. Qed.

Lemma ReadLicenseDir_no_match {A} {R : DirnamesReader A} (dir : A) names :
  Readdirnames dir 0 = (names, None) ->
  Forall (fun x => IsLicenseFilename u x = false) names ->
  ReadLicenseDir u w dir = ("", [], Some os_ErrNotExist).
Proof.
  intros Hn Hall. unfold ReadLicenseDir. rewrite Hn.
  apply ReadLicenseDir_loop_none, Hall.
Qed.

End ScanFacts.

(** ** The loop over the matches *)

Lemma strings_Join_nil sep : strings_Join [] sep = "".
Proof. reflexivity. Qed.

Lemma assertLicense_loop_hit ms want acc :
  (exists m, m ∈ ms /\ Match.Type_ m = want) ->
  assertLicense_loop ms want acc = None.
Proof.
  revert acc. induction ms as [|m ms IH]; intros acc (x & Hin & Hx).
  - inversion Hin.
  - cbn [assertLicense_loop].
    destruct (Z.eqb_spec (Match.Type_ m) want) as [|Hne]; [reflexivity|].
    apply IH. exists x. split; [|exact Hx].
    apply elem_of_cons in Hin as [->|Hin]; [contradiction|exact Hin].
Qed.

Lemma assertLicense_loop_miss ms want acc :
  (forall m, m ∈ ms -> Match.Type_ m <> want) ->
  assertLicense_loop ms want acc
  = Some (errorString
            ("license does not match. found: "
             +:+ strings_Join (acc ++ (Sprintf_match <$> ms)) ",")).
Proof.
  revert acc.
  induction ms as [|m ms IH]; intros acc Hall; cbn [assertLicense_loop fmap list_fmap].
  - rewrite app_nil_r. reflexivity.
  - destruct (Z.eqb_spec (Match.Type_ m) want) as [Heq|_].
    + exfalso. apply (Hall m); [apply list_elem_of_here|exact Heq].
    + rewrite IH
        by (intros x Hx; apply Hall, list_elem_of_further; exact Hx).
      rewrite <- app_assoc. reflexivity.
Qed.

Lemma assertLicense_loop_None ms want acc :
  assertLicense_loop ms want acc = None ->
  exists m, m ∈ ms /\ Match.Type_ m = want.
Proof.
  revert acc.
  induction ms as [|m ms IH]; intros acc; cbn [assertLicense_loop];
    [discriminate|].
  destruct (Z.eqb_spec (Match.Type_ m) want) as [Heq|_].
  - intros _. exists m. split; [apply list_elem_of_here|exact Heq].
  - intros H. destruct (IH _ H) as (x & Hin & Hx).
    exists x. split; [apply list_elem_of_further; exact Hin|exact Hx].
Qed.

Lemma AssertLicenseDir_read_ok u Cover w {A} {R : DirnamesReader A}
    (dir : A) f b want percent :
  ReadLicenseDir u w dir = (f, b, None) ->
  AssertLicenseDir u Cover w dir want percent
  = assertLicense Cover b want percent.
Proof. intros HR. unfold AssertLicenseDir. rewrite HR. reflexivity. Qed.

Lemma AssertLicenseDir_read_error u Cover w {A} {R : DirnamesReader A}
    (dir : A) f b e want percent :
  ReadLicenseDir u w dir = (f, b, Some e) ->
  AssertLicenseDir u Cover w dir want percent = Some e.
Proof. intros HR. unfold AssertLicenseDir. rewrite HR. reflexivity. Qed.

Lemma AssertLicense_read_ok u Cover w f b want percent :
  ReadLicense u w = (f, b, None) ->
  AssertLicense u Cover w want percent = assertLicense Cover b want percent.
Proof. intros HR. unfold AssertLicense. rewrite HR. reflexivity. Qed.

(** ** Claims on the directory scan *)

(** C1: the file is read by its bare name, which the system resolves in
    the working directory and not in the directory that was listed.  A
    handle on [/repo] lists [README.md; LICENSE]; while the process runs in
    [/work], [ReadLicenseDir] answers with the bytes of [/work/LICENSE],
    not with those of [/repo/LICENSE]. *)
Theorem ReadLicenseDir_reads_working_directory :
  Readdirnames (DirnamesReader := File_Readdirnames demo_world) repo_dir 0
  = (["README.md"; "LICENSE"], None) /\
  contents demo_world "/repo/LICENSE" = (bytes_of "MIT License", None) /\
  ReadLicenseDir unicode_ToLower_rows demo_world
    (R := File_Readdirnames demo_world) repo_dir
  = ("LICENSE", bytes_of "GNU GENERAL PUBLIC LICENSE", None).
Proof. repeat split; vm_compute; reflexivity. Qed.

(** The same handle with no LICENSE in the working directory: the scan
    reports an open failure although the listed directory holds the file. *)
Example ReadLicenseDir_missing_in_working_directory :
  ReadLicenseDir unicode_ToLower_rows bare_world
    (R := File_Readdirnames bare_world) repo_dir
  = ("LICENSE", [], Some (PathError "open" "LICENSE" 2)).
Proof. vm_compute. reflexivity. Qed.

(** C7: a listing error is returned as it is by [ReadLicenseDir] and by
    [AssertLicenseDir]; when the first recognized file cannot be read, the
    read error is returned as it is, together with the filename. *)
Theorem io_errors_pass_through
    (u : rune -> rune) (Cover : list Byte.byte -> Options -> Coverage.t * bool)
    (w : World) {A} {R : DirnamesReader A} (dir : A)
    (want : Z) (percent : float) :
  (forall (names : list string) (e : error),
     Readdirnames dir 0 = (names, Some e) ->
     ReadLicenseDir u w dir = ("", [], Some e) /\
     AssertLicenseDir u Cover w dir want percent = Some e) /\
  (forall (pre : list string) (f : string) (post : list string)
          (b : list Byte.byte) (e : error),
     Readdirnames dir 0 = ((pre ++ f :: post)%list, None) ->
     Forall (fun x => IsLicenseFilename u x = false) pre ->
     IsLicenseFilename u f = true ->
     ioutil_ReadFile w f = (b, Some e) ->
     ReadLicenseDir u w dir = (f, b, Some e) /\
     AssertLicenseDir u Cover w dir want percent = Some e).
Proof.
  split.
  - intros names e Hn.
    pose proof (ReadLicenseDir_listing_error u w dir names e Hn) as HR.
    split; [exact HR|].
    exact (AssertLicenseDir_read_error u Cover w dir _ _ e want percent HR).
  - intros pre f post b e Hn Hpre Hf Hread.
    pose proof (ReadLicenseDir_first_match u w dir pre f post Hn Hpre Hf)
      as HR.
    rewrite Hread in HR. cbn [fst snd] in HR.
    split; [exact HR|].
    exact (AssertLicenseDir_read_error u Cover w dir _ _ e want percent HR).
Qed.

Lemma io_errors_pass_through_witness :
  (ReadLicenseDir unicode_ToLower_rows bare_world failing_dir
   = ("", [], Some (PathError "readdirent" "." 5)) /\
   AssertLicenseDir unicode_ToLower_rows (const_Cover no_Coverage false)
     bare_world failing_dir demo_MIT 90
   = Some (PathError "readdirent" "." 5)) /\
  (ReadLicenseDir unicode_ToLower_rows bare_world license_dir
   = ("LICENSE", [], Some (PathError "open" "LICENSE" 2)) /\
   AssertLicenseDir unicode_ToLower_rows (const_Cover no_Coverage false)
     bare_world license_dir demo_MIT 90
   = Some (PathError "open" "LICENSE" 2)).
Proof.
  destruct (io_errors_pass_through unicode_ToLower_rows
              (const_Cover no_Coverage false) bare_world failing_dir
              demo_MIT 90) as [Hlist _].
  destruct (io_errors_pass_through unicode_ToLower_rows
              (const_Cover no_Coverage false) bare_world license_dir
              demo_MIT 90) as [_ Hread].
  split.
  - apply (Hlist ["partial"]). reflexivity.
  - apply (Hread ["README.md"] "LICENSE" ["COPYING"]).
    + reflexivity.
    + repeat constructor.
    + vm_compute. reflexivity.
    + reflexivity.
Defined.

(** ** Claims on the assertion *)

(** C2: with a coverage that is not below the threshold, the matches are
    scanned in order and a match of the wanted type ends the scan with
    [nil], whatever follows it; when no match has the wanted type the
    error message lists every match as name and percentage, joined by
    commas, in the order of the scorer.  [AssertLicenseDir] is this step
    applied to the bytes it read. *)
Theorem assertLicense_type_scan
    (u : rune -> rune) (Cover : list Byte.byte -> Options -> Coverage.t * bool)
    (w : World) {A} {R : DirnamesReader A} (dir : A)
    (f : string) (b : list Byte.byte) (cov : Coverage.t)
    (want : Z) (percent : float) :
  ReadLicenseDir u w dir = (f, b, None) ->
  Cover b Options_zero = (cov, true) ->
  PrimFloat.ltb (Coverage.Percent cov) percent = false ->
  AssertLicenseDir u Cover w dir want percent
  = assertLicense Cover b want percent /\
  (forall (pre : list Match.t) (m : Match.t) (post : list Match.t),
     Coverage.Match cov = (pre ++ m :: post)%list ->
     Match.Type_ m = want ->
     assertLicense Cover b want percent = None) /\
  ((forall m, m ∈ Coverage.Match cov -> Match.Type_ m <> want) ->
   assertLicense Cover b want percent
   = Some (errorString
             ("license does not match. found: "
              +:+ strings_Join (Sprintf_match <$> Coverage.Match cov) ","))).
Proof.
  intros HR HC Hlt.
  split; [exact (AssertLicenseDir_read_ok u Cover w dir f b want percent HR)|].
  unfold assertLicense. rewrite HC. cbn [negb]. rewrite Hlt.
  split.
  - intros pre m post Hm Hty. apply assertLicense_loop_hit.
    exists m. split; [|exact Hty].
    rewrite Hm. apply elem_of_app. right. apply list_elem_of_here.
  - intros Hall. apply (assertLicense_loop_miss _ want [] Hall).
Qed.

Lemma assertLicense_type_scan_witness :
  AssertLicenseDir unicode_ToLower_rows (const_Cover cov_two true)
    demo_world license_dir demo_MIT 90 = None /\
  AssertLicenseDir unicode_ToLower_rows (const_Cover cov_two true)
    demo_world license_dir 9 90
  = Some (errorString
            "license does not match. found: Apache-2.0(95.2%),MIT(10.0%)").
Proof.
  assert (HR : ReadLicenseDir unicode_ToLower_rows demo_world license_dir
               = ("LICENSE", bytes_of "GNU GENERAL PUBLIC LICENSE", None))
    by (vm_compute; reflexivity).
  split.
  - destruct (assertLicense_type_scan unicode_ToLower_rows
                (const_Cover cov_two true) demo_world license_dir
                "LICENSE" (bytes_of "GNU GENERAL PUBLIC LICENSE") cov_two
                demo_MIT 90 HR eq_refl eq_refl) as (-> & Hhit & _).
    apply (Hhit [apache_match 95.25] (mit_match 10) []).
    + reflexivity.
    + reflexivity.
  - destruct (assertLicense_type_scan unicode_ToLower_rows
                (const_Cover cov_two true) demo_world license_dir
                "LICENSE" (bytes_of "GNU GENERAL PUBLIC LICENSE") cov_two
                9 90 HR eq_refl eq_refl) as (-> & _ & Hmiss).
    rewrite Hmiss; [vm_compute; reflexivity|].
    intros m Hm. unfold cov_two in Hm. cbn [Coverage.Match] in Hm.
    repeat (apply elem_of_cons in Hm as [->|Hm];
            [vm_compute; discriminate|]).
    inversion Hm.
Defined.

(** C3: when the coverage percentage is below the threshold, the step
    fails with the message "percentage P is less than wanted W", both
    printed by [%f]; the answer depends neither on the wanted type nor on
    the matches, which are not looked at.  [AssertLicenseDir] and
    [AssertLicense] return the same error for the bytes they read. *)
Theorem assertLicense_below_threshold
    (u : rune -> rune) (Cover : list Byte.byte -> Options -> Coverage.t * bool)
    (w : World) (b : list Byte.byte) (cov : Coverage.t)
    (want : Z) (percent : float) :
  Cover b Options_zero = (cov, true) ->
  PrimFloat.ltb (Coverage.Percent cov) percent = true ->
  let err :=
    Some (errorString
            ("percentage " +:+ fmt_f (Coverage.Percent cov)
             +:+ " is less than wanted " +:+ fmt_f percent)) in
  assertLicense Cover b want percent = err /\
  (forall (A : Type) (R : DirnamesReader A) (dir : A) (f : string),
     ReadLicenseDir u w dir = (f, b, None) ->
     AssertLicenseDir u Cover w dir want percent = err) /\
  (forall f : string,
     ReadLicense u w = (f, b, None) ->
     AssertLicense u Cover w want percent = err) /\
  (forall Cover' cov' want',
     Cover' b Options_zero = (cov', true) ->
     Coverage.Percent cov' = Coverage.Percent cov ->
     assertLicense Cover' b want' percent = err).
Proof.
  intros HC Hlt err.
  assert (Hstep : forall Cover' cov' want',
             Cover' b Options_zero = (cov', true) ->
             Coverage.Percent cov' = Coverage.Percent cov ->
             assertLicense Cover' b want' percent = err).
  { intros Cover' cov' want' HC' Hp. unfold assertLicense.
    rewrite HC'. cbn [negb]. rewrite Hp, Hlt. reflexivity. }
  pose proof (Hstep Cover cov want HC eq_refl) as Hme.
  split; [exact Hme|]. split; [|split; [|exact Hstep]].
  - intros A R dir f HR.
    rewrite (AssertLicenseDir_read_ok u Cover w dir f b want percent HR).
    exact Hme.
  - intros f HR.
    rewrite (AssertLicense_read_ok u Cover w f b want percent HR).
    exact Hme.
Qed.

Lemma assertLicense_below_threshold_witness :
  PrimFloat.ltb 72 90 = true /\
  AssertLicenseDir unicode_ToLower_rows (const_Cover cov_72 true)
    demo_world license_dir demo_MIT 90
  = Some (errorString "percentage 72.000000 is less than wanted 90.000000").
Proof.
  split; [reflexivity|].
  destruct (assertLicense_below_threshold unicode_ToLower_rows
              (const_Cover cov_72 true) demo_world
              (bytes_of "GNU GENERAL PUBLIC LICENSE") cov_72 demo_MIT 90
              eq_refl eq_refl) as (_ & Hdir & _).
  rewrite (Hdir _ _ license_dir "LICENSE"); vm_compute; reflexivity.
Defined.

(** C10: the step answers [nil] only if the scorer reported a coverage
    and one of its matches has the wanted type; a coverage that passes the
    threshold with no match at all gives the error
    "license does not match. found: ". *)
Theorem assertLicense_nil_needs_match
    (Cover : list Byte.byte -> Options -> Coverage.t * bool)
    (b : list Byte.byte) (want : Z) (percent : float) :
  (assertLicense Cover b want percent = None ->
   exists cov m,
     Cover b Options_zero = (cov, true) /\
     m ∈ Coverage.Match cov /\ Match.Type_ m = want) /\
  (forall cov,
     Cover b Options_zero = (cov, true) ->
     PrimFloat.ltb (Coverage.Percent cov) percent = false ->
     Coverage.Match cov = [] ->
     assertLicense Cover b want percent
     = Some (errorString "license does not match. found: ")).
Proof.
  unfold assertLicense. split.
  - destruct (Cover b Options_zero) as [cov [|]]; cbn [negb];
      [|discriminate].
    destruct (PrimFloat.ltb (Coverage.Percent cov) percent); [discriminate|].
    intros (m & Hin & Hty)%assertLicense_loop_None.
    exists cov, m. auto.
  - intros cov -> Hlt Hnil. cbn [negb]. rewrite Hlt, Hnil. reflexivity.
Qed.

Lemma assertLicense_nil_needs_match_witness :
  assertLicense (const_Cover cov_empty true) [] demo_MIT 90
  = Some (errorString "license does not match. found: ") /\
  (assertLicense (const_Cover cov_two true) [] demo_MIT 90 = None ->
   exists cov m,
     const_Cover cov_two true [] Options_zero = (cov, true) /\
     m ∈ Coverage.Match cov /\ Match.Type_ m = demo_MIT).
Proof.
  split.
  - apply (proj2 (assertLicense_nil_needs_match (const_Cover cov_empty true)
                    [] demo_MIT 90) cov_empty); reflexivity.
  - exact (proj1 (assertLicense_nil_needs_match (const_Cover cov_two true)
                    [] demo_MIT 90)).
Defined.

(** C4, as stated, fails: a listing without any recognized name makes
    [AssertLicenseDir] return [os.ErrNotExist], whose text is
    "file does not exist"; a scorer without coverage makes it return the
    error "license not found".  The two are different errors. *)
Lemma not_found_signals_differ :
  AssertLicenseDir unicode_ToLower_rows (const_Cover no_Coverage false)
    demo_world no_license_dir demo_MIT 90 = Some os_ErrNotExist /\
  AssertLicenseDir unicode_ToLower_rows (const_Cover no_Coverage false)
    demo_world license_dir demo_MIT 90
  = Some (errorString "license not found") /\
  Error demo_Errno_Error os_ErrNotExist = "file does not exist" /\
  Some os_ErrNotExist <> Some (errorString "license not found").
Proof. repeat split; try (vm_compute; reflexivity). discriminate. Qed.

(** C4, amended: when no entry of the listing is recognized,
    [ReadLicenseDir] and [AssertLicenseDir] fail with [os.ErrNotExist]
    (text "file does not exist"); when a file was read and the scorer
    reports no coverage, [AssertLicenseDir] fails with the error
    "license not found". *)
Theorem not_found_signals
    (u : rune -> rune) (Errno_Error : Z -> string)
    (Cover : list Byte.byte -> Options -> Coverage.t * bool)
    (w : World) {A} {R : DirnamesReader A} (dir : A)
    (want : Z) (percent : float) :
  (forall names : list string,
     Readdirnames dir 0 = (names, None) ->
     Forall (fun x => IsLicenseFilename u x = false) names ->
     ReadLicenseDir u w dir = ("", [], Some os_ErrNotExist) /\
     AssertLicenseDir u Cover w dir want percent = Some os_ErrNotExist) /\
  (forall (f : string) (b : list Byte.byte),
     ReadLicenseDir u w dir = (f, b, None) ->
     (Cover b Options_zero).2 = false ->
     AssertLicenseDir u Cover w dir want percent
     = Some (errorString "license not found")) /\
  Error Errno_Error os_ErrNotExist = "file does not exist".
Proof.
  split; [|split; [|reflexivity]].
  - intros names Hn Hall.
    pose proof (ReadLicenseDir_no_match u w dir names Hn Hall) as HR.
    split; [exact HR|].
    exact (AssertLicenseDir_read_error u Cover w dir _ _ _ want percent HR).
  - intros f b HR Hok.
    rewrite (AssertLicenseDir_read_ok u Cover w dir f b want percent HR).
    unfold assertLicense. destruct (Cover b Options_zero) as [cov ok].
    cbn [snd] in Hok. rewrite Hok. reflexivity.
Qed.

Lemma not_found_signals_witness :
  (ReadLicenseDir unicode_ToLower_rows demo_world no_license_dir
   = ("", [], Some os_ErrNotExist) /\
   AssertLicenseDir unicode_ToLower_rows (const_Cover no_Coverage false)
     demo_world no_license_dir demo_MIT 90 = Some os_ErrNotExist) /\
  AssertLicenseDir unicode_ToLower_rows (const_Cover no_Coverage false)
    demo_world license_dir demo_MIT 90
  = Some (errorString "license not found").
Proof.
  split.
  - apply (proj1 (not_found_signals unicode_ToLower_rows demo_Errno_Error
                    (const_Cover no_Coverage false) demo_world
                    no_license_dir demo_MIT 90) ["README.md"; "main.go"]).
    + reflexivity.
    + repeat constructor.
  - apply (proj1 (proj2 (not_found_signals unicode_ToLower_rows
                           demo_Errno_Error (const_Cover no_Coverage false)
                           demo_world license_dir demo_MIT 90))
             "LICENSE" (bytes_of "GNU GENERAL PUBLIC LICENSE")).
    + vm_compute. reflexivity.
    + reflexivity.
Defined.

(** ** Claims on the test wrappers *)

(** C8: [Test t want] is [TestPercent t want 90]; [TestPercent] leaves
    [t] untouched and returns when [AssertLicense] gives [nil], and
    otherwise reports the error through [t.Fatal]: the error line is
    logged, the test is marked failed and the goroutine exits. *)
Theorem Test_is_TestPercent_90
    (u : rune -> rune) (Errno_Error : Z -> string)
    (Cover : list Byte.byte -> Options -> Coverage.t * bool)
    (w : World) (t : T) (want : Z) :
  Test u Errno_Error Cover w t want
  = TestPercent u Errno_Error Cover w t want 90 /\
  (forall percent,
     AssertLicense u Cover w want percent = None ->
     TestPercent u Errno_Error Cover w t want percent = (t, Returned)) /\
  (forall percent err,
     AssertLicense u Cover w want percent = Some err ->
     TestPercent u Errno_Error Cover w t want percent
     = ({| failed := true;
           output := output t ++ [Error Errno_Error err +:+ String "010" ""] |},
        Goexit)).
Proof.
  split; [reflexivity|].
  split; intros percent; [intros H | intros err H];
    unfold TestPercent; rewrite H; reflexivity.
Qed.

Lemma Test_is_TestPercent_90_witness :
  Test unicode_ToLower_rows demo_Errno_Error (const_Cover cov_72 true)
    demo_world t0 demo_MIT
  = ({| failed := true;
        output := ["percentage 72.000000 is less than wanted 90.000000"
                   +:+ String "010" ""] |}, Goexit) /\
  Test unicode_ToLower_rows demo_Errno_Error (const_Cover cov_two true)
    demo_world t0 demo_MIT
  = (t0, Returned).
Proof.
  split.
  - destruct (Test_is_TestPercent_90 unicode_ToLower_rows demo_Errno_Error
                (const_Cover cov_72 true) demo_world t0 demo_MIT)
      as (-> & _ & Hfatal).
    rewrite (Hfatal 90%float
               (errorString
                  "percentage 72.000000 is less than wanted 90.000000"));
      vm_compute; reflexivity.
  - destruct (Test_is_TestPercent_90 unicode_ToLower_rows demo_Errno_Error
                (const_Cover cov_two true) demo_world t0 demo_MIT)
      as (-> & Hok & _).
    apply Hok. vm_compute. reflexivity.
Defined.

(** X1: whenever the listing succeeds, the names are scanned in the order
    of the listing; the first recognized name is returned together with
    what [ioutil.ReadFile] gives for that bare name, and the entries after
    it have no influence on the answer. *)
Theorem ReadLicenseDir_scan_order
    (u : rune -> rune) (w : World) {A} {R : DirnamesReader A} (dir : A)
    (pre : list string) (f : string) (post : list string) :
  Readdirnames dir 0 = ((pre ++ f :: post)%list, None) ->
  Forall (fun x => IsLicenseFilename u x = false) pre ->
  IsLicenseFilename u f = true ->
  ReadLicenseDir u w dir
  = (f, (contents w (abs_path w f)).1, (contents w (abs_path w f)).2).
Proof.
  intros Hn Hpre Hf.
  exact (ReadLicenseDir_first_match u w dir pre f post Hn Hpre Hf).
Qed.

Lemma ReadLicenseDir_scan_order_witness :
  ReadLicenseDir unicode_ToLower_rows demo_world license_dir
  = ("LICENSE", bytes_of "GNU GENERAL PUBLIC LICENSE", None).
Proof.
  rewrite (ReadLicenseDir_scan_order unicode_ToLower_rows demo_world
             license_dir ["README.md"] "LICENSE" ["COPYING"]).
  - reflexivity.
  - reflexivity.
  - repeat constructor.
  - vm_compute. reflexivity.
Defined.

(** ** Further properties of the directory scan *)

Lemma ReadLicenseDir_loop_cases u w (names : list string) :
  (Forall (fun x => IsLicenseFilename u x = false) names /\
   ReadLicenseDir_loop u w names = ("", [], Some os_ErrNotExist)) \/
  (exists (pre : list string) (f : string) (post : list string),
     names = (pre ++ f :: post)%list /\
     Forall (fun x => IsLicenseFilename u x = false) pre /\
     IsLicenseFilename u f = true /\
     ReadLicenseDir_loop u w names
     = (f, (ioutil_ReadFile w f).1, (ioutil_ReadFile w f).2)).
Proof.
  induction names as [|x names IH].
  - left. split; [constructor|reflexivity].
  - destruct (IsLicenseFilename u x) eqn:Hx.
    + right. exists [], x, names. split; [reflexivity|].
      split; [constructor|]. split; [exact Hx|].
      apply (ReadLicenseDir_loop_first u w [] x names); [constructor|exact Hx].
    + cbn [ReadLicenseDir_loop]. rewrite Hx.
      destruct IH as [[Hall Hres]|(pre & f & post & -> & Hpre & Hf & Hres)].
      * left. split; [constructor; assumption|exact Hres].
      * right. exists (x :: pre), f, post. split; [reflexivity|].
        split; [constructor; assumption|]. split; [exact Hf|exact Hres].
Qed.

(** X2: [ReadLicenseDir] has three outcomes and no other.  Either the
    listing failed and its error is returned with no name and no bytes; or
    no name of the listing is recognized and the error is
    [os.ErrNotExist]; or the listing splits at its first recognized name,
    which is returned with the answer of [ioutil.ReadFile] for it.  So a
    name that is returned is always a recognized entry of the listing. *)
Theorem ReadLicenseDir_outcomes
    (u : rune -> rune) (w : World) {A} {R : DirnamesReader A} (dir : A) :
  (exists (names : list string) (e : error),
     Readdirnames dir 0 = (names, Some e) /\
     ReadLicenseDir u w dir = ("", [], Some e)) \/
  (exists names : list string,
     Readdirnames dir 0 = (names, None) /\
     Forall (fun x => IsLicenseFilename u x = false) names /\
     ReadLicenseDir u w dir = ("", [], Some os_ErrNotExist)) \/
  (exists (pre : list string) (f : string) (post : list string),
     Readdirnames dir 0 = ((pre ++ f :: post)%list, None) /\
     Forall (fun x => IsLicenseFilename u x = false) pre /\
     IsLicenseFilename u f = true /\
     ReadLicenseDir u w dir
     = (f, (ioutil_ReadFile w f).1, (ioutil_ReadFile w f).2)).
Proof.
  unfold ReadLicenseDir.
  destruct (Readdirnames dir 0) as [names [e|]].
  - left. exists names, e. auto.
  - right.
    destruct (ReadLicenseDir_loop_cases u w names)
      as [[Hall Hres]|(pre & f & post & -> & Hpre & Hf & Hres)].
    + left. exists names. auto.
    + right. exists pre, f, post. auto.
Qed.

(** A successful scan, read backwards. *)
Lemma ReadLicenseDir_ok_inv u w {A} {R : DirnamesReader A} (dir : A)
    (f : string) (b : list Byte.byte) :
  ReadLicenseDir u w dir = (f, b, None) ->
  exists (pre post : list string),
    Readdirnames dir 0 = ((pre ++ f :: post)%list, None) /\
    Forall (fun x => IsLicenseFilename u x = false) pre /\
    IsLicenseFilename u f = true /\
    ioutil_ReadFile w f = (b, None).
Proof.
  unfold ReadLicenseDir.
  destruct (Readdirnames dir 0) as [names [e|]]; [discriminate|].
  destruct (ReadLicenseDir_loop_cases u w names)
    as [[_ H]|(pre & g & post & -> & Hpre & Hg & H)];
    rewrite H; [discriminate|].
  intros HR. injection HR as -> Hb He.
  exists pre, post. split; [reflexivity|]. split; [exact Hpre|].
  split; [exact Hg|].
  destruct (ioutil_ReadFile w f) as [b' e']. cbn [fst snd] in *.
  subst. reflexivity.
Qed.

(** ** Recognized names are bare file names *)

Lemma lowerByte_slash c : Ascii.eqb "/" (lowerByte c) = Ascii.eqb "/" c.
Proof. by_all_bytes c. Qed.

Lemma string_existsb_slash_lower s :
  string_existsb (Ascii.eqb "/") (string_map lowerByte s)
  = string_existsb (Ascii.eqb "/") s.
Proof.
  induction s as [|c s IH]; cbn [string_map string_existsb]; [reflexivity|].
  rewrite lowerByte_slash, IH. reflexivity.
Qed.

Lemma string_map_length f s :
  String.length (string_map f s) = String.length s.
Proof.
  induction s as [|c s IH]; cbn [string_map String.length];
    [reflexivity|]. rewrite IH. reflexivity.
Qed.

(** Every lowercased entry of the allowlist is free of ['/'] and is 7 to
    22 bytes long. *)
Lemma lowered_Filenames_shape u :
  Forall (fun x => string_existsb (Ascii.eqb "/") x = false /\
                   (7 <= String.length x <= 22)%nat)
         (ToLower u <$> Filenames).
Proof. apply (bool_decide_unpack _). vm_compute. exact I. Qed.

Lemma recognized_ascii_shape u (name : string) :
  isASCII name = true ->
  IsLicenseFilename u name = true ->
  string_existsb (Ascii.eqb "/") name = false /\
  (7 <= String.length name <= 22)%nat.
Proof.
  intros Ha Hrec. apply IsLicenseFilename_true in Hrec.
  pose proof (proj1 (Forall_forall _ _) (lowered_Filenames_shape u)
                _ Hrec) as [Hs Hl].
  unfold ToLower in Hs, Hl.
  rewrite (strings_ToLower_ascii u name Ha) in Hs, Hl.
  rewrite string_existsb_slash_lower in Hs.
  rewrite string_map_length in Hl. auto.
Qed.

Lemma abs_path_bare w (name : string) :
  string_existsb (Ascii.eqb "/") name = false ->
  (2 <= String.length name)%nat ->
  abs_path w name = Getwd w +:+ "/" +:+ name.
Proof.
  intros Hs Hl. unfold abs_path.
  destruct name as [|c [|c' name]]; cbn [String.length] in Hl; try lia.
  cbn [string_existsb] in Hs. apply orb_false_elim in Hs as [Hc _].
  replace (String.eqb (String c (String c' name)) ".") with false
    by (cbn [String.eqb]; destruct (Ascii.eqb c "."); reflexivity).
  destruct c as [[] [] [] [] [] [] [] []]; try reflexivity; discriminate Hc.
Qed.

(** X3: a name of ASCII bytes that [IsLicenseFilename] accepts holds no
    path separator and is 7 to 22 bytes long; it is neither empty nor
    [.] nor [..], it names a file of the directory it is resolved in. *)
Theorem IsLicenseFilename_bare_name (u : rune -> rune) (name : string) :
  isASCII name = true ->
  IsLicenseFilename u name = true ->
  string_existsb (Ascii.eqb "/") name = false /\
  (7 <= String.length name <= 22)%nat /\
  name <> "" /\ name <> "." /\ name <> "..".
Proof.
  intros Ha Hrec.
  destruct (recognized_ascii_shape u name Ha Hrec) as [Hs Hl].
  split; [exact Hs|]. split; [exact Hl|].
  repeat split; intros ->; cbn [String.length] in Hl; lia.
Qed.

Lemma IsLicenseFilename_bare_name_witness :
  string_existsb (Ascii.eqb "/") "Copying.TXT" = false /\
  (7 <= String.length "Copying.TXT" <= 22)%nat /\
  "Copying.TXT" <> "" /\ "Copying.TXT" <> "." /\ "Copying.TXT" <> "..".
Proof.
  apply (IsLicenseFilename_bare_name unicode_ToLower_rows "Copying.TXT").
  - reflexivity.
  - vm_compute. reflexivity.
Defined.

(** X4: [ReadLicense] lists the working directory and reads the first
    recognized ASCII name from that same directory: the bytes are those of
    the entry of that name in the working directory. *)
Theorem ReadLicense_reads_listed_directory
    (u : rune -> rune) (w : World)
    (pre : list string) (f : string) (post : list string) :
  open_err w (Getwd w) = None ->
  entries w (Getwd w) = ((pre ++ f :: post)%list, None) ->
  Forall (fun x => IsLicenseFilename u x = false) pre ->
  IsLicenseFilename u f = true ->
  isASCII f = true ->
  ReadLicense u w
  = (f, (contents w (Getwd w +:+ "/" +:+ f)).1,
        (contents w (Getwd w +:+ "/" +:+ f)).2).
Proof.
  intros Hopen Hn Hpre Hf Ha.
  unfold ReadLicense, os_Open.
  change (abs_path w ".") with (Getwd w). rewrite Hopen.
  rewrite (ReadLicenseDir_first_match u w (R := File_Readdirnames w)
             {| f_path := Getwd w |} pre f post Hn Hpre Hf).
  unfold ioutil_ReadFile.
  destruct (recognized_ascii_shape u f Ha Hf) as [Hs Hl].
  rewrite (abs_path_bare w f Hs) by lia. reflexivity.
Qed.

Lemma ReadLicense_reads_listed_directory_witness :
  ReadLicense unicode_ToLower_rows demo_world
  = ("LICENSE", bytes_of "GNU GENERAL PUBLIC LICENSE", None).
Proof.
  rewrite (ReadLicense_reads_listed_directory unicode_ToLower_rows
             demo_world ["main.go"] "LICENSE" []).
  - reflexivity.
  - reflexivity.
  - reflexivity.
  - repeat constructor.
  - vm_compute. reflexivity.
  - reflexivity.
Defined.

(** X5: [AssertLicense] is [AssertLicenseDir] on a handle of the working
    directory.  When [os.Open(".")] fails, [ReadLicense] and
    [AssertLicense] return that error and nothing is listed, read or
    scored; when it succeeds they give what [ReadLicenseDir] and
    [AssertLicenseDir] give for the opened directory. *)
Theorem AssertLicense_is_AssertLicenseDir_cwd
    (u : rune -> rune) (Cover : list Byte.byte -> Options -> Coverage.t * bool)
    (w : World) (want : Z) (percent : float) :
  (forall e : error,
     open_err w (Getwd w) = Some e ->
     ReadLicense u w = ("", [], Some e) /\
     AssertLicense u Cover w want percent = Some e) /\
  (open_err w (Getwd w) = None ->
   ReadLicense u w
   = ReadLicenseDir u w (R := File_Readdirnames w) {| f_path := Getwd w |} /\
   AssertLicense u Cover w want percent
   = AssertLicenseDir u Cover w (R := File_Readdirnames w)
       {| f_path := Getwd w |} want percent).
Proof.
  unfold AssertLicense, AssertLicenseDir, ReadLicense, os_Open.
  change (abs_path w ".") with (Getwd w).
  split; [intros e Hopen | intros Hopen]; rewrite Hopen; auto.
Qed.

Lemma AssertLicense_is_AssertLicenseDir_cwd_witness :
  (ReadLicense unicode_ToLower_rows locked_world
   = ("", [], Some (PathError "open" "." 13)) /\
   AssertLicense unicode_ToLower_rows (const_Cover cov_two true)
     locked_world demo_MIT 90 = Some (PathError "open" "." 13)) /\
  AssertLicense unicode_ToLower_rows (const_Cover cov_two true)
    demo_world demo_MIT 90 = None.
Proof.
  split.
  - apply (proj1 (AssertLicense_is_AssertLicenseDir_cwd unicode_ToLower_rows
                    (const_Cover cov_two true) locked_world demo_MIT 90)).
    reflexivity.
  - destruct (proj2 (AssertLicense_is_AssertLicenseDir_cwd
                       unicode_ToLower_rows (const_Cover cov_two true)
                       demo_world demo_MIT 90) eq_refl) as [_ ->].
    vm_compute. reflexivity.
Defined.

(** ** When the assertion succeeds *)

Lemma assertLicense_None_iff
    (Cover : list Byte.byte -> Options -> Coverage.t * bool)
    (b : list Byte.byte) (want : Z) (percent : float) :
  assertLicense Cover b want percent = None <->
  exists cov m,
    Cover b Options_zero = (cov, true) /\
    PrimFloat.ltb (Coverage.Percent cov) percent = false /\
    m ∈ Coverage.Match cov /\ Match.Type_ m = want.
Proof.
  unfold assertLicense. split.
  - destruct (Cover b Options_zero) as [cov [|]]; cbn [negb];
      [|discriminate].
    destruct (PrimFloat.ltb (Coverage.Percent cov) percent) eqn:Hlt;
      [discriminate|].
    intros (m & Hin & Hty)%assertLicense_loop_None.
    exists cov, m. auto.
  - intros (cov & m & -> & -> & Hin & Hty). cbn [negb].
    apply assertLicense_loop_hit. exists m. auto.
Qed.

(** X6: the assertion answers [nil] exactly when everything went well.
    [assertLicense] gives [nil] if and only if the scorer reported a
    coverage that is not below the threshold and has a match of the wanted
    type; [AssertLicenseDir] gives [nil] if and only if, moreover, the
    listing succeeded, has a recognized name, and the first such name
    could be read. *)
Theorem assertion_nil_iff
    (u : rune -> rune) (Cover : list Byte.byte -> Options -> Coverage.t * bool)
    (w : World) {A} {R : DirnamesReader A} (dir : A)
    (b0 : list Byte.byte) (want : Z) (percent : float) :
  (assertLicense Cover b0 want percent = None <->
   exists cov m,
     Cover b0 Options_zero = (cov, true) /\
     PrimFloat.ltb (Coverage.Percent cov) percent = false /\
     m ∈ Coverage.Match cov /\ Match.Type_ m = want) /\
  (AssertLicenseDir u Cover w dir want percent = None <->
   exists (pre : list string) (f : string) (post : list string)
          (b : list Byte.byte) cov m,
     Readdirnames dir 0 = ((pre ++ f :: post)%list, None) /\
     Forall (fun x => IsLicenseFilename u x = false) pre /\
     IsLicenseFilename u f = true /\
     ioutil_ReadFile w f = (b, None) /\
     Cover b Options_zero = (cov, true) /\
     PrimFloat.ltb (Coverage.Percent cov) percent = false /\
     m ∈ Coverage.Match cov /\ Match.Type_ m = want).
Proof.
  split; [apply assertLicense_None_iff|]. split.
  - unfold AssertLicenseDir.
    destruct (ReadLicenseDir u w dir) as [[f b] [e|]] eqn:HR; [discriminate|].
    intros (cov & m & HC & Hlt & Hin & Hty)%assertLicense_None_iff.
    destruct (ReadLicenseDir_ok_inv u w dir f b HR)
      as (pre & post & Hn & Hpre & Hf & Hread).
    exists pre, f, post, b, cov, m. auto 10.
  - intros (pre & f & post & b & cov & m & Hn & Hpre & Hf & Hread
            & HC & Hlt & Hin & Hty).
    pose proof (ReadLicenseDir_first_match u w dir pre f post Hn Hpre Hf)
      as HR.
    rewrite Hread in HR. cbn [fst snd] in HR.
    rewrite (AssertLicenseDir_read_ok u Cover w dir f b want percent HR).
    apply assertLicense_None_iff. exists cov, m. auto.
Qed.

(** ** The threshold *)

Lemma SFcompare_lt_le_trans a b c :
  SFcompare a b = Some Lt ->
  SFcompare b c = Some Lt \/ SFcompare b c = Some Eq ->
  SFcompare a c = Some Lt.
Proof.
  destruct a as [[]|[]| |[] m1 e1], b as [[]|[]| |[] m2 e2],
           c as [[]|[]| |[] m3 e3];
    cbn [SFcompare]; intros Hab [Hbc|Hbc];
    try discriminate; try reflexivity;
    revert Hab Hbc;
    change (Pos.compare_cont Eq) with Pos.compare;
    destruct (Z.compare_spec e1 e2), (Z.compare_spec e2 e3),
             (Z.compare_spec e1 e3);
    try lia; try discriminate; try reflexivity;
    destruct (Pos.compare_spec m1 m2), (Pos.compare_spec m2 m3),
             (Pos.compare_spec m1 m3);
    cbn [CompOpp]; try lia; try discriminate; try reflexivity.
Qed.

(** On [float64]: [c < p'] and [p' <= p] give [c < p]. *)
Lemma ltb_leb_trans (c p' p : float) :
  PrimFloat.ltb c p' = true -> PrimFloat.leb p' p = true ->
  PrimFloat.ltb c p = true.
Proof.
  rewrite !ltb_spec, leb_spec. unfold SFltb, SFleb.
  intros H1 H2.
  rewrite (SFcompare_lt_le_trans (Prim2SF c) (Prim2SF p') (Prim2SF p)).
  - reflexivity.
  - destruct (SFcompare (Prim2SF c) (Prim2SF p')) as [[]|]; congruence.
  - destruct (SFcompare (Prim2SF p') (Prim2SF p)) as [[]|];
      auto; discriminate.
Qed.

Lemma ltb_nan (x y : float) :
  PrimFloat.is_nan x = true \/ PrimFloat.is_nan y = true ->
  PrimFloat.ltb x y = false.
Proof.
  rewrite ltb_spec. unfold SFltb, Prim2SF at 1 2.
  intros [H|H]; rewrite H; [reflexivity|].
  destruct (PrimFloat.is_nan x); [reflexivity|].
  match goal with
  | |- match SFcompare ?a _ with _ => _ end = _ => destruct a; reflexivity
  end.
Qed.

Lemma assertLicense_threshold_le
    (Cover : list Byte.byte -> Options -> Coverage.t * bool)
    (b : list Byte.byte) (want : Z) (p p' : float) :
  PrimFloat.leb p' p = true ->
  assertLicense Cover b want p = None ->
  assertLicense Cover b want p' = None.
Proof.
  intros Hle. unfold assertLicense.
  destruct (Cover b Options_zero) as [cov [|]]; cbn [negb]; [|discriminate].
  destruct (PrimFloat.ltb (Coverage.Percent cov) p) eqn:Hp; [discriminate|].
  destruct (PrimFloat.ltb (Coverage.Percent cov) p') eqn:Hp'; [|auto].
  rewrite (ltb_leb_trans _ _ _ Hp' Hle) in Hp. discriminate.
Qed.

(** X7: lowering the threshold never turns a pass into a failure.  If
    [p' <= p] and the assertion answers [nil] with threshold [p], it
    answers [nil] with threshold [p']; this holds for [assertLicense],
    [AssertLicenseDir] and [AssertLicense]. *)
Theorem threshold_monotone
    (u : rune -> rune) (Cover : list Byte.byte -> Options -> Coverage.t * bool)
    (w : World) {A} {R : DirnamesReader A} (dir : A)
    (b : list Byte.byte) (want : Z) (p p' : float) :
  PrimFloat.leb p' p = true ->
  (assertLicense Cover b want p = None ->
   assertLicense Cover b want p' = None) /\
  (AssertLicenseDir u Cover w dir want p = None ->
   AssertLicenseDir u Cover w dir want p' = None) /\
  (AssertLicense u Cover w want p = None ->
   AssertLicense u Cover w want p' = None).
Proof.
  intros Hle. split; [apply assertLicense_threshold_le, Hle|]. split.
  - unfold AssertLicenseDir.
    destruct (ReadLicenseDir u w dir) as [[f b1] [e|]]; [discriminate|].
    apply assertLicense_threshold_le, Hle.
  - unfold AssertLicense.
    destruct (ReadLicense u w) as [[f b1] [e|]]; [discriminate|].
    apply assertLicense_threshold_le, Hle.
Qed.

Lemma threshold_monotone_witness :
  PrimFloat.leb 50 90 = true /\
  (AssertLicenseDir unicode_ToLower_rows (const_Cover cov_two true)
     demo_world license_dir demo_MIT 90 = None ->
   AssertLicenseDir unicode_ToLower_rows (const_Cover cov_two true)
     demo_world license_dir demo_MIT 50 = None).
Proof.
  split; [reflexivity|].
  apply (threshold_monotone unicode_ToLower_rows (const_Cover cov_two true)
           demo_world license_dir [] demo_MIT 90 50).
  reflexivity.
Defined.

(** X8: a comparison with NaN is never true, so when the threshold or the
    coverage percentage is NaN the percentage check lets everything
    through: the answer is [nil] if some match has the wanted type and the
    type-mismatch error otherwise, never the percentage error. *)
Theorem nan_skips_threshold
    (Cover : list Byte.byte -> Options -> Coverage.t * bool)
    (b : list Byte.byte) (cov : Coverage.t) (want : Z) (percent : float) :
  Cover b Options_zero = (cov, true) ->
  PrimFloat.is_nan (Coverage.Percent cov) = true \/
  PrimFloat.is_nan percent = true ->
  ((exists m, m ∈ Coverage.Match cov /\ Match.Type_ m = want) ->
   assertLicense Cover b want percent = None) /\
  ((forall m, m ∈ Coverage.Match cov -> Match.Type_ m <> want) ->
   assertLicense Cover b want percent
   = Some (errorString
             ("license does not match. found: "
              +:+ strings_Join (Sprintf_match <$> Coverage.Match cov) ","))).
Proof.
  intros HC Hnan. unfold assertLicense. rewrite HC. cbn [negb].
  rewrite (ltb_nan _ _ Hnan). split.
  - apply assertLicense_loop_hit.
  - intros Hall. apply (assertLicense_loop_miss _ want [] Hall).
Qed.

Lemma nan_skips_threshold_witness :
  PrimFloat.is_nan nan = true /\
  assertLicense (const_Cover cov_72 true) [] demo_MIT 90
  = Some (errorString "percentage 72.000000 is less than wanted 90.000000") /\
  assertLicense (const_Cover cov_72 true) [] demo_MIT nan = None.
Proof.
  split; [reflexivity|]. split; [vm_compute; reflexivity|].
  apply (proj1 (nan_skips_threshold (const_Cover cov_72 true) [] cov_72
                  demo_MIT nan eq_refl (or_intror eq_refl))).
  exists (mit_match 72). split; [apply list_elem_of_here|reflexivity].
Defined.

Lemma ltb_irrefl (x : float) : PrimFloat.ltb x x = false.
Proof.
  rewrite ltb_spec. unfold SFltb.
  destruct (Prim2SF x) as [[]|[]| |[] m e]; cbn [SFcompare];
    try reflexivity;
    rewrite Z.compare_refl; change (Pos.compare_cont Eq) with Pos.compare;
    rewrite Pos.compare_refl; reflexivity.
Qed.

(** X9: the threshold is inclusive.  A coverage percentage equal to the
    threshold is not below it: the answer is [nil] if some match has the
    wanted type and the type-mismatch error otherwise. *)
Theorem threshold_inclusive
    (Cover : list Byte.byte -> Options -> Coverage.t * bool)
    (b : list Byte.byte) (cov : Coverage.t) (want : Z) (percent : float) :
  Cover b Options_zero = (cov, true) ->
  Coverage.Percent cov = percent ->
  ((exists m, m ∈ Coverage.Match cov /\ Match.Type_ m = want) ->
   assertLicense Cover b want percent = None) /\
  ((forall m, m ∈ Coverage.Match cov -> Match.Type_ m <> want) ->
   assertLicense Cover b want percent
   = Some (errorString
             ("license does not match. found: "
              +:+ strings_Join (Sprintf_match <$> Coverage.Match cov) ","))).
Proof.
  intros HC <-. unfold assertLicense. rewrite HC. cbn [negb].
  rewrite ltb_irrefl. split.
  - apply assertLicense_loop_hit.
  - intros Hall. apply (assertLicense_loop_miss _ want [] Hall).
Qed.

Lemma threshold_inclusive_witness :
  assertLicense (const_Cover cov_72 true) [] demo_MIT 72 = None.
Proof.
  apply (proj1 (threshold_inclusive (const_Cover cov_72 true) [] cov_72
                  demo_MIT 72 eq_refl eq_refl)).
  exists (mit_match 72). split; [apply list_elem_of_here|reflexivity].
Defined.

(** ** UTF-8: what is written is what is read *)

Lemma byteZ_Zbyte z : 0 <= z < 256 -> byteZ (Zbyte z) = z.
Proof.
  intros H. unfold byteZ, Zbyte. rewrite Z.mod_small by lia.
  rewrite N_ascii_embedding by lia. lia.
Qed.

Lemma lor_add a b k :
  0 <= k -> a mod 2 ^ k = 0 -> 0 <= b < 2 ^ k -> Z.lor a b = a + b.
Proof.
  intros Hk Ha Hb. symmetry. apply Z.add_nocarry_lor.
  apply Z.bits_inj'. intros n Hn. rewrite Z.land_spec, Z.bits_0.
  destruct (Z.lt_ge_cases n k).
  - rewrite (Z.div_mod a (2 ^ k)) by lia.
    rewrite Ha, Z.add_0_r, Z.mul_comm, Z.mul_pow2_bits_low by lia.
    reflexivity.
  - rewrite <- (Z.mod_small b (2 ^ k)) by lia.
    rewrite Z.mod_pow2_bits_high by lia. apply andb_false_r.
Qed.

Lemma land_mask x k m : m = Z.ones k -> 0 <= k -> Z.land x m = x mod 2 ^ k.
Proof. intros -> Hk. apply Z.land_ones, Hk. Qed.

Ltac bits_to_arith :=
  rewrite ?Z.shiftr_div_pow2, ?Z.shiftl_mul_pow2 by lia;
  rewrite ?(land_mask _ 6 0x3F), ?(land_mask _ 5 0x1F),
          ?(land_mask _ 4 0x0F), ?(land_mask _ 3 0x07) by (reflexivity || lia);
  change (2 ^ 3) with 8; change (2 ^ 4) with 16; change (2 ^ 5) with 32;
  change (2 ^ 6) with 64; change (2 ^ 12) with 4096;
  change (2 ^ 18) with 262144.

Ltac if_by_lia b :=
  match goal with
  | |- context [if ?c then _ else _] =>
    replace c with b by (symmetry; lia)
  end.

Lemma utf8_first_2 x : 0xC2 <= x <= 0xDF -> utf8_first x = 0x02.
Proof.
  intros H. unfold utf8_first.
  repeat match goal with
         | |- context [if ?c then _ else _] => destruct c eqn:?
         end; lia.
Qed.

Lemma decode_bytes_2 x0 x1 rest :
  0xC2 <= x0 <= 0xDF -> 0x80 <= x1 <= 0xBF ->
  utf8_DecodeRuneInString (String (Zbyte x0) (String (Zbyte x1) rest))
  = ((x0 - 0xC0) * 64 + (x1 - 0x80), 2%nat).
Proof.
  intros H0 H1. unfold utf8_DecodeRuneInString.
  rewrite !byteZ_Zbyte by lia. rewrite (utf8_first_2 x0 H0).
  change (0xF0 <=? 0x02) with false.
  change (utf8_acceptRanges (Z.shiftr 0x02 4)) with (0x80, 0xBF).
  change (Z.land 0x02 7 <=? 2) with true. cbv iota beta zeta.
  if_by_lia false. cbv iota.
  f_equal. bits_to_arith.
  rewrite (lor_add _ _ 6) by (try apply Z_mod_mult; Z.div_mod_to_equations; lia).
  Z.div_mod_to_equations; lia.
Qed.

Ltac split_first :=
  unfold utf8_first;
  repeat match goal with
         | |- context [if ?c then _ else _] => destruct c eqn:?
         end; try lia.

Ltac given_first v acc :=
  cbv zeta;
  change (0xF0 <=? v) with false;
  change (utf8_acceptRanges (Z.shiftr v 4)) with acc;
  let sz := eval vm_compute in (Z.land v 7) in
  change (Z.land v 7) with sz;
  cbv beta iota.

Ltac finish_decode :=
  unfold utf8_cont;
  repeat first
    [ match goal with
      | |- context [if ?c then _ else _] =>
        first [ replace c with false by (symmetry; lia)
              | replace c with true by (symmetry; lia) ]
      end; cbv beta iota ];
  f_equal; bits_to_arith.

Lemma decode_bytes_3 x0 x1 x2 rest :
  0xE0 <= x0 <= 0xEF -> 0x80 <= x1 <= 0xBF -> 0x80 <= x2 <= 0xBF ->
  (x0 = 0xE0 -> 0xA0 <= x1) -> (x0 = 0xED -> x1 <= 0x9F) ->
  utf8_DecodeRuneInString
    (String (Zbyte x0) (String (Zbyte x1) (String (Zbyte x2) rest)))
  = ((x0 - 0xE0) * 4096 + (x1 - 0x80) * 64 + (x2 - 0x80), 3%nat).
Proof.
  intros H0 H1 H2 Hlo Hhi. unfold utf8_DecodeRuneInString.
  rewrite !byteZ_Zbyte by lia.
  assert (Hf : utf8_first x0 = 0x13 /\ x0 = 0xE0 \/
               utf8_first x0 = 0x23 /\ x0 = 0xED \/
               utf8_first x0 = 0x03 /\ x0 <> 0xE0 /\ x0 <> 0xED)
    by (split_first).
  destruct Hf as [[-> Hx]|[[-> Hx]|[-> Hx]]];
    [ given_first 0x13 (0xA0, 0xBF)
    | given_first 0x23 (0x80, 0x9F)
    | given_first 0x03 (0x80, 0xBF) ];
    finish_decode;
    rewrite (lor_add _ ((x1 mod 64) * 64) 12)
      by (Z.div_mod_to_equations; lia);
    rewrite (lor_add _ _ 6) by (Z.div_mod_to_equations; lia);
    Z.div_mod_to_equations; lia.
Qed.

Lemma decode_bytes_4 x0 x1 x2 x3 rest :
  0xF0 <= x0 <= 0xF4 -> 0x80 <= x1 <= 0xBF -> 0x80 <= x2 <= 0xBF ->
  0x80 <= x3 <= 0xBF ->
  (x0 = 0xF0 -> 0x90 <= x1) -> (x0 = 0xF4 -> x1 <= 0x8F) ->
  utf8_DecodeRuneInString
    (String (Zbyte x0) (String (Zbyte x1) (String (Zbyte x2)
       (String (Zbyte x3) rest))))
  = ((x0 - 0xF0) * 262144 + (x1 - 0x80) * 4096 + (x2 - 0x80) * 64
     + (x3 - 0x80), 4%nat).
Proof.
  intros H0 H1 H2 H3 Hlo Hhi. unfold utf8_DecodeRuneInString.
  rewrite !byteZ_Zbyte by lia.
  assert (Hf : utf8_first x0 = 0x34 /\ x0 = 0xF0 \/
               utf8_first x0 = 0x44 /\ x0 = 0xF4 \/
               utf8_first x0 = 0x04 /\ x0 <> 0xF0 /\ x0 <> 0xF4)
    by (split_first).
  destruct Hf as [[-> Hx]|[[-> Hx]|[-> Hx]]];
    [ given_first 0x34 (0x90, 0xBF)
    | given_first 0x44 (0x80, 0x8F)
    | given_first 0x04 (0x80, 0xBF) ];
    finish_decode;
    rewrite (lor_add _ ((x1 mod 64) * 4096) 18)
      by (Z.div_mod_to_equations; lia);
    rewrite (lor_add _ ((x2 mod 64) * 64) 12)
      by (Z.div_mod_to_equations; lia);
    rewrite (lor_add _ _ 6) by (Z.div_mod_to_equations; lia);
    Z.div_mod_to_equations; lia.
Qed.

Lemma utf8_EncodeRune_cases r :
  0 <= r ->
  (r <= 0x7F /\ utf8_EncodeRune r = String (Zbyte r) "") \/
  (0x80 <= r <= 0x7FF /\
   utf8_EncodeRune r
   = String (Zbyte (0xC0 + r / 64)) (String (Zbyte (0x80 + r mod 64)) "")) \/
  (0x800 <= r /\ utf8_ValidRune r = false /\
   utf8_EncodeRune r = utf8_EncodeRune utf8_RuneError) \/
  (0x800 <= r <= 0xFFFF /\ utf8_ValidRune r = true /\
   utf8_EncodeRune r
   = String (Zbyte (0xE0 + r / 4096))
       (String (Zbyte (0x80 + (r / 64) mod 64))
          (String (Zbyte (0x80 + r mod 64)) ""))) \/
  (0x10000 <= r <= 0x10FFFF /\
   utf8_EncodeRune r
   = String (Zbyte (0xF0 + r / 262144))
       (String (Zbyte (0x80 + (r / 4096) mod 64))
          (String (Zbyte (0x80 + (r / 64) mod 64))
             (String (Zbyte (0x80 + r mod 64)) "")))).
Proof.
  intros H0. unfold utf8_EncodeRune, utf8_ValidRune, utf8_MaxRune.
  cbv zeta.
  destruct (r <=? 0x7F) eqn:H1; [left; split; [lia|reflexivity]|].
  destruct (r <=? 0x7FF) eqn:H2.
  { right; left. split; [lia|]. bits_to_arith.
    rewrite (lor_add 0xC0 _ 6), (lor_add 0x80 _ 6)
      by (try reflexivity; Z.div_mod_to_equations; lia).
    reflexivity. }
  destruct ((0x10FFFF <? r) || ((0xD800 <=? r) && (r <=? 0xDFFF))) eqn:H3.
  { right; right; left. split; [lia|]. split; [lia|]. reflexivity. }
  destruct (r <=? 0xFFFF) eqn:H4.
  { right; right; right; left. split; [lia|]. split; [lia|].
    bits_to_arith.
    rewrite (lor_add 0xE0 _ 5), !(lor_add 0x80 _ 6)
      by (try reflexivity; Z.div_mod_to_equations; lia).
    reflexivity. }
  right; right; right; right. split; [lia|]. bits_to_arith.
  rewrite (lor_add 0xF0 _ 4), !(lor_add 0x80 _ 6)
    by (try reflexivity; Z.div_mod_to_equations; lia).
  reflexivity.
Qed.

Lemma append_String c s t : String c s +:+ t = String c (s +:+ t).
Proof. reflexivity. Qed.

Lemma append_Empty t : "" +:+ t = t.
Proof. reflexivity. Qed.

Lemma utf8_decode_encode r rest :
  0 <= r ->
  utf8_DecodeRuneInString (utf8_EncodeRune r ++ rest)
  = (if utf8_ValidRune r then r else utf8_RuneError,
     String.length (utf8_EncodeRune r)).
Proof.
  intros H0.
  destruct (utf8_EncodeRune_cases r H0)
    as [[H ->]|[[H ->]|[(H & Hv & ->)|[(H & Hv & ->)|[H ->]]]]];
    rewrite ?append_String, ?append_Empty; cbn [String.length].
  - replace (utf8_ValidRune r) with true
      by (unfold utf8_ValidRune, utf8_MaxRune; lia).
    unfold utf8_DecodeRuneInString. rewrite byteZ_Zbyte by lia.
    replace (utf8_first r) with 0xF0 by (unfold utf8_first; split_first).
    reflexivity.
  - replace (utf8_ValidRune r) with true
      by (unfold utf8_ValidRune, utf8_MaxRune; lia).
    rewrite decode_bytes_2 by (Z.div_mod_to_equations; lia).
    f_equal. Z.div_mod_to_equations; lia.
  - rewrite Hv. reflexivity.
  - rewrite Hv. unfold utf8_ValidRune, utf8_MaxRune in Hv.
    rewrite decode_bytes_3 by (Z.div_mod_to_equations; lia).
    f_equal. Z.div_mod_to_equations; lia.
  - replace (utf8_ValidRune r) with true
      by (unfold utf8_ValidRune, utf8_MaxRune; lia).
    rewrite decode_bytes_4 by (Z.div_mod_to_equations; lia).
    f_equal. Z.div_mod_to_equations; lia.
Qed.

Lemma utf8_EncodeRune_nonempty r : utf8_EncodeRune r <> "".
Proof.
  unfold utf8_EncodeRune. cbv zeta.
  repeat match goal with
         | |- context [if ?c then _ else _] => destruct c
         end; discriminate.
Qed.

Lemma string_drop_app (a rest : string) :
  string_drop (String.length a) (a +:+ rest) = rest.
Proof. induction a as [|c a IH]; [reflexivity|exact IH]. Qed.

Lemma utf8_runes_encode r rest :
  0 <= r ->
  utf8_runes (utf8_EncodeRune r +:+ rest)
  = (if utf8_ValidRune r then r else utf8_RuneError) :: utf8_runes rest.
Proof.
  intros H0. pose proof (utf8_decode_encode r rest H0) as Hd.
  pose proof (string_drop_app (utf8_EncodeRune r) rest) as Hdrop.
  destruct (utf8_EncodeRune r) as [|c e] eqn:He;
    [exact (False_ind _ (utf8_EncodeRune_nonempty r He))|].
  rewrite append_String in *. rewrite utf8_runes_step, Hd.
  cbn [fst snd]. rewrite Hdrop. reflexivity.
Qed.

Lemma strings_Map_write u s :
  strings_Map u s = write_runes (u <$> utf8_runes s).
Proof.
  unfold strings_Map, write_runes.
  induction (utf8_runes s) as [|c l IH]; [reflexivity|].
  cbn [fmap list_fmap fold_right]. rewrite IH. reflexivity.
Qed.

Lemma isASCII_app a b : isASCII (a +:+ b) = isASCII a && isASCII b.
Proof.
  unfold isASCII. induction a as [|c a IH]; [reflexivity|].
  rewrite append_String. cbn [string_forallb]. rewrite IH.
  apply andb_assoc.
Qed.

Lemma string_existsb_app p a b :
  string_existsb p (a +:+ b) = string_existsb p a || string_existsb p b.
Proof.
  induction a as [|c a IH]; [reflexivity|].
  rewrite append_String. cbn [string_existsb]. rewrite IH.
  apply orb_assoc.
Qed.

(** An encoding is one ASCII byte exactly for the runes up to 0x7F. *)
Lemma isASCII_encode r :
  0 <= r -> isASCII (utf8_EncodeRune r) = true ->
  r <= 0x7F /\ utf8_EncodeRune r = String (Zbyte r) "".
Proof.
  intros H0.
  destruct (utf8_EncodeRune_cases r H0)
    as [[H ->]|[[H ->]|[(H & Hv & ->)|[(H & Hv & ->)|[H ->]]]]];
    [auto| | | | ];
    unfold isASCII, utf8_RuneSelf; cbn [string_forallb];
    try (rewrite byteZ_Zbyte by (Z.div_mod_to_equations; lia));
    intros Ha; try discriminate Ha;
    apply andb_prop in Ha as [Ha _]; exfalso;
    Z.div_mod_to_equations; lia.
Qed.

Lemma write_runes_cons r rs :
  write_runes (r :: rs)
  = if 0 <=? r then utf8_EncodeRune r +:+ write_runes rs else write_runes rs.
Proof. reflexivity. Qed.

Section Stable.

Variable u : rune -> rune.
Hypothesis Hu : stable_lowering u.

Lemma write_runes_no_upper (rs : list rune) :
  Forall (fun r => u r = r) rs ->
  isASCII (write_runes rs) = true ->
  string_existsb isUpperByte (write_runes rs) = false.
Proof.
  destruct Hu as (Hup & _ & _).
  induction 1 as [|r rs Hr _ IH]; [reflexivity|].
  rewrite write_runes_cons.
  destruct (0 <=? r) eqn:H0; [|exact IH].
  rewrite isASCII_app, string_existsb_app.
  intros [Ha Hb]%andb_prop.
  destruct (isASCII_encode r ltac:(lia) Ha) as [Hle ->].
  rewrite (IH Hb), orb_false_r. cbn [string_existsb]. rewrite orb_false_r.
  unfold isUpperByte. rewrite byteZ_Zbyte by lia.
  change (byteZ "A") with 0x41. change (byteZ "Z") with 0x5A.
  destruct ((0x41 <=? r) && (r <=? 0x5A)) eqn:Hc; [|reflexivity].
  specialize (Hup r ltac:(lia)). lia.
Qed.

Lemma write_runes_reread (rs : list rune) :
  Forall (fun r => u r = r) rs ->
  write_runes (u <$> utf8_runes (write_runes rs)) = write_runes rs.
Proof.
  destruct Hu as (_ & _ & Hfffd).
  induction 1 as [|r rs Hr _ IH]; [reflexivity|].
  rewrite write_runes_cons.
  destruct (0 <=? r) eqn:H0; [|exact IH].
  rewrite utf8_runes_encode by lia.
  rewrite fmap_cons, write_runes_cons, IH.
  destruct (utf8_ValidRune r) eqn:Hv.
  - rewrite Hr, H0. reflexivity.
  - rewrite Hfffd. change (0 <=? utf8_RuneError) with true. cbv iota.
    f_equal.
    destruct (utf8_EncodeRune_cases r ltac:(lia))
      as [[H _]|[[H _]|[(H & _ & ->)|[(H & Hv' & _)|[H _]]]]];
      try reflexivity; exfalso;
      unfold utf8_ValidRune, utf8_MaxRune in *; lia.
Qed.

Lemma strings_ToLower_write_runes (rs : list rune) :
  Forall (fun r => u r = r) rs ->
  strings_ToLower u (write_runes rs) = write_runes rs.
Proof.
  intros Hfix. unfold strings_ToLower.
  destruct (isASCII (write_runes rs)) eqn:Ha.
  - rewrite (write_runes_no_upper rs Hfix Ha). reflexivity.
  - rewrite strings_Map_write. apply write_runes_reread, Hfix.
Qed.

Lemma strings_ToLower_idem (s : string) :
  strings_ToLower u (strings_ToLower u s) = strings_ToLower u s.
Proof.
  destruct (isASCII s) eqn:Ha.
  - apply (ToLower_ToLower_ascii u s Ha).
  - unfold strings_ToLower at 2 3. rewrite Ha, strings_Map_write.
    apply strings_ToLower_write_runes.
    apply Forall_fmap, Forall_forall. intros c _.
    destruct Hu as (_ & Hidem & _). apply Hidem.
Qed.

End Stable.

Lemma unicode_ToLower_rows_unfold r :
  unicode_ToLower_rows r
  = if r <=? 0x7F then (if (0x41 <=? r) && (r <=? 0x5A) then r + 32 else r)
    else if (0x41 <=? r) && (r <=? 0x5A) then r + 32
    else if (0x61 <=? r) && (r <=? 0x7A) then r + 0
    else if (0x130 <=? r) && (r <=? 0x130) then r + -199
    else if (0x131 <=? r) && (r <=? 0x131) then r + 0
    else if (0x17F <=? r) && (r <=? 0x17F) then r + 0
    else if (0x212A <=? r) && (r <=? 0x212A) then r + -8383
    else r.
Proof. reflexivity. Qed.

Lemma unicode_ToLower_rows_stable : stable_lowering unicode_ToLower_rows.
Proof.
  split; [|split; [|reflexivity]].
  - intros r Hr. rewrite unicode_ToLower_rows_unfold.
    repeat case_match; lia.
  - intros r. rewrite (unicode_ToLower_rows_unfold r).
    repeat case_match; rewrite unicode_ToLower_rows_unfold;
      repeat case_match; lia.
Qed.

(** ** Case-insensitivity of the recognizer *)

(** The lowercased entries of the allowlist are left alone by lowering. *)
Lemma lowered_Filenames_fixed u :
  Forall (fun x => ToLower u x = x) (ToLower u <$> Filenames).
Proof. apply (bool_decide_unpack _). vm_compute. exact I. Qed.

(** Whatever the rune tables: a recognized name stays recognized when it
    is lowercased. *)
Lemma IsLicenseFilename_ToLower_true u (s : string) :
  IsLicenseFilename u s = true ->
  IsLicenseFilename u (strings_ToLower u s) = true.
Proof.
  intros Hrec. rewrite <- Hrec. apply IsLicenseFilename_ToLower_eq.
  apply IsLicenseFilename_true in Hrec.
  exact (proj1 (Forall_forall _ _) (lowered_Filenames_fixed u) _ Hrec).
Qed.

(** C5, amended: for every string [s], [IsLicenseFilename s] equals
    [IsLicenseFilename] of the lowercased form of [s]; for every string
    [s] made of ASCII bytes only it also equals [IsLicenseFilename] of the
    uppercased form of [s].

    The first equality holds for every string as soon as the rune map of
    [unicode.ToLower] is a [stable_lowering], as Go's is.  For ASCII-only
    strings both equalities hold whatever the rune maps are, and so does,
    for every string, the step from a recognized name to its lowercased
    form. *)
Theorem IsLicenseFilename_case_insensitive
    (u u' : rune -> rune) (s : string) :
  (stable_lowering u ->
   IsLicenseFilename u s = IsLicenseFilename u (strings_ToLower u s)) /\
  (isASCII s = true ->
   IsLicenseFilename u s = IsLicenseFilename u (strings_ToLower u s) /\
   IsLicenseFilename u s = IsLicenseFilename u (strings_ToUpper u' s)) /\
  (IsLicenseFilename u s = true ->
   IsLicenseFilename u (strings_ToLower u s) = true).
Proof.
  split; [|split].
  - intros Hu. apply IsLicenseFilename_ToLower_eq. symmetry.
    apply (strings_ToLower_idem u Hu s).
  - intros Ha. split; apply IsLicenseFilename_ToLower_eq; symmetry.
    + apply (ToLower_ToLower_ascii u s Ha).
    + apply (ToLower_ToUpper_ascii u u' s Ha).
  - apply IsLicenseFilename_ToLower_true.
Qed.

Lemma IsLicenseFilename_case_insensitive_witness :
  stable_lowering unicode_ToLower_rows /\
  strings_ToLower unicode_ToLower_rows dotted_I_name = "license" /\
  IsLicenseFilename unicode_ToLower_rows dotted_I_name
  = IsLicenseFilename unicode_ToLower_rows "license" /\
  IsLicenseFilename unicode_ToLower_rows long_s_name
  = IsLicenseFilename unicode_ToLower_rows
      (strings_ToLower unicode_ToLower_rows long_s_name) /\
  IsLicenseFilename unicode_ToLower_rows "Copying.md"
  = IsLicenseFilename unicode_ToLower_rows "COPYING.MD".
Proof.
  split; [exact unicode_ToLower_rows_stable|].
  split; [vm_compute; reflexivity|].
  split; [|split].
  - apply (proj1 (IsLicenseFilename_case_insensitive unicode_ToLower_rows
                    unicode_ToUpper_rows dotted_I_name)).
    exact unicode_ToLower_rows_stable.
  - apply (proj1 (IsLicenseFilename_case_insensitive unicode_ToLower_rows
                    unicode_ToUpper_rows long_s_name)).
    exact unicode_ToLower_rows_stable.
  - apply (proj1 (proj2 (IsLicenseFilename_case_insensitive
                           unicode_ToLower_rows unicode_ToUpper_rows
                           "Copying.md"))).
    reflexivity.
Defined.
